(** * Verification of the analytics core of war_record (src/card_tracker.py)

    The pandas DataFrame of match records is modelled as a list of rows;
    a boolean-mask selection [df[cond]] is [filter cond], [len] is
    [length].  All string-valued columns stay strings, as after the
    [astype(str)] of [load_data]; the result and first/second columns are
    compared against the literal strings of the source.  Float win rates
    are modelled exactly, as rationals [Q]. *)

From Stdlib Require Import String Ascii List Bool ZArith QArith Lia.
From Stdlib Require Import Sorting.Sorted Permutation.
Import ListNotations.
Open Scope string_scope.

(** ** Constants of the source *)

Definition WIN := "勝ち".
Definition LOSS := "負け".
Definition FIRST := "先攻".
Definition SECOND := "後攻".
Definition SELECT_PLACEHOLDER := "--- 選択してください ---".
Definition ALL_TYPES_PLACEHOLDER := "全タイプ".

(** ** Data model: one row of the canonical DataFrame ([COLUMNS]) *)

Record row := mkRow {
  season : string;
  date : option Z;              (* pd.to_datetime(..., errors='coerce'), day number *)
  environment : string;
  my_deck : string;
  my_deck_type : string;
  opponent_deck : string;
  opponent_deck_type : string;
  first_second : string;
  result : string;
  finish_turn : option Z;       (* Int64 column, NA = None *)
  memo : string
}.

Definition table := list row.

(** [len(df[cond])] *)
Definition count (p : row -> bool) (T : table) : nat := length (filter p T).

(** [x / n * 100] as a float, read exactly. *)
Definition Qnat (n : nat) : Q := inject_Z (Z.of_nat n).
Definition pct (w n : nat) : Q := (Qnat w / Qnat n * 100)%Q.

(** ** Focus selection of [show_analysis_section] (lines 390-400)

    [selected_focus_type] comes from [st.session_state.get], hence an
    option; it narrows only when truthy and not the "all types" label. *)

Definition narrowing (ty : option string) : option string :=
  match ty with
  | Some t => if (t =? "") || (t =? ALL_TYPES_PLACEHOLDER) then None else Some t
  | None => None
  end.

Definition cond_my_deck_focus (deck : string) (ty : option string) (r : row) : bool :=
  (my_deck r =? deck) &&
  match narrowing ty with Some t => my_deck_type r =? t | None => true end.

Definition cond_opponent_deck_focus (deck : string) (ty : option string) (r : row) : bool :=
  (opponent_deck r =? deck) &&
  match narrowing ty with Some t => opponent_deck_type r =? t | None => true end.

Definition focus_as_my_deck_games (T : table) deck ty : table :=
  filter (cond_my_deck_focus deck ty) T.
Definition focus_as_opponent_deck_games (T : table) deck ty : table :=
  filter (cond_opponent_deck_focus deck ty) T.

Definition is_result (s : string) (r : row) : bool := result r =? s.
Definition is_first_second (s : string) (r : row) : bool := first_second r =? s.

Definition total_appearances (T : table) deck ty : nat :=
  length (focus_as_my_deck_games T deck ty) + length (focus_as_opponent_deck_games T deck ty).

Definition total_wins_for_focus_deck (T : table) deck ty : nat :=
  count (is_result WIN) (focus_as_my_deck_games T deck ty) +
  count (is_result LOSS) (focus_as_opponent_deck_games T deck ty).

Definition total_losses_for_focus_deck (T : table) deck ty : nat :=
  total_appearances T deck ty - total_wins_for_focus_deck T deck ty.

(** line 409 *)
Definition win_rate_for_focus_deck (T : table) deck ty : Q :=
  let n := total_appearances T deck ty in
  if (0 <? n)%nat then pct (total_wins_for_focus_deck T deck ty) n else 0%Q.

(** First/second split of the focus deck (lines 414-423). *)
Definition total_games_focus_first (T : table) deck ty : nat :=
  count (is_first_second FIRST) (focus_as_my_deck_games T deck ty) +
  count (is_first_second SECOND) (focus_as_opponent_deck_games T deck ty).
Definition wins_focus_first (T : table) deck ty : nat :=
  count (is_result WIN) (filter (is_first_second FIRST) (focus_as_my_deck_games T deck ty)) +
  count (is_result LOSS) (filter (is_first_second SECOND) (focus_as_opponent_deck_games T deck ty)).
Definition win_rate_focus_first (T : table) deck ty : option Q :=
  let n := total_games_focus_first T deck ty in
  if (0 <? n)%nat then Some (pct (wins_focus_first T deck ty) n) else None.

Definition total_games_focus_second (T : table) deck ty : nat :=
  count (is_first_second SECOND) (focus_as_my_deck_games T deck ty) +
  count (is_first_second FIRST) (focus_as_opponent_deck_games T deck ty).
Definition wins_focus_second (T : table) deck ty : nat :=
  count (is_result WIN) (filter (is_first_second SECOND) (focus_as_my_deck_games T deck ty)) +
  count (is_result LOSS) (filter (is_first_second FIRST) (focus_as_opponent_deck_games T deck ty)).
Definition win_rate_focus_second (T : table) deck ty : option Q :=
  let n := total_games_focus_second T deck ty in
  if (0 <? n)%nat then Some (pct (wins_focus_second T deck ty) n) else None.

(** ** Python string helpers

    Strings are the UTF-8 bytes of the text.  [py_lower] lowercases ASCII
    letters; it is only used to compare with ["nan"], and no non-ASCII
    character lowercases to an ASCII letter of "nan".  [py_strip] removes at
    both ends the characters for which Python's [str.isspace] holds: the
    ASCII ones (9-13 and 28-32) and U+0085, U+00A0, U+1680, U+2000-U+200A,
    U+2028, U+2029, U+202F, U+205F and U+3000, matched by their UTF-8
    encodings. *)

Definition ascii_lower (c : ascii) : ascii :=
  let n := nat_of_ascii c in
  if (65 <=? n)%nat && (n <=? 90)%nat then ascii_of_nat (n + 32) else c.

Fixpoint py_lower (s : string) : string :=
  match s with
  | EmptyString => EmptyString
  | String c s' => String (ascii_lower c) (py_lower s')
  end.

(** One-byte whitespace. *)
Definition is_py_space (c : ascii) : bool :=
  let n := nat_of_ascii c in
  ((9 <=? n)%nat && (n <=? 13)%nat) || ((28 <=? n)%nat && (n <=? 32)%nat).

(** Two-byte whitespace: U+0085 (C2 85) and U+00A0 (C2 A0). *)
Definition is_py_space2 (c1 c2 : ascii) : bool :=
  let a := nat_of_ascii c1 in
  let b := nat_of_ascii c2 in
  (a =? 194)%nat && ((b =? 133)%nat || (b =? 160)%nat).

(** Three-byte whitespace: U+1680 (E1 9A 80), U+2000-U+200A (E2 80 80-8A),
    U+2028, U+2029, U+202F (E2 80 A8, A9, AF), U+205F (E2 81 9F) and
    U+3000 (E3 80 80). *)
Definition is_py_space3 (c1 c2 c3 : ascii) : bool :=
  let a := nat_of_ascii c1 in
  let b := nat_of_ascii c2 in
  let c := nat_of_ascii c3 in
  ((a =? 225)%nat && (b =? 154)%nat && (c =? 128)%nat) ||
  ((a =? 226)%nat && (b =? 128)%nat &&
     (((128 <=? c)%nat && (c <=? 138)%nat) || (c =? 168)%nat || (c =? 169)%nat ||
      (c =? 175)%nat)) ||
  ((a =? 226)%nat && (b =? 129)%nat && (c =? 159)%nat) ||
  ((a =? 227)%nat && (b =? 128)%nat && (c =? 128)%nat).

(** [lstrip]: drop whitespace characters from the front. *)
Fixpoint drop_spaces (l : list ascii) : list ascii :=
  match l with
  | [] => []
  | c1 :: l1 =>
      if is_py_space c1 then drop_spaces l1 else
      match l1 with
      | c2 :: l2 =>
          if is_py_space2 c1 c2 then drop_spaces l2 else
          match l2 with
          | c3 :: l3 => if is_py_space3 c1 c2 c3 then drop_spaces l3 else l
          | [] => l
          end
      | [] => l
      end
  end.

(** [rstrip] on the reversed bytes: the last character's bytes come first,
    its lead byte last. *)
Fixpoint drop_spaces_rev (l : list ascii) : list ascii :=
  match l with
  | [] => []
  | c1 :: l1 =>
      if is_py_space c1 then drop_spaces_rev l1 else
      match l1 with
      | c2 :: l2 =>
          if is_py_space2 c2 c1 then drop_spaces_rev l2 else
          match l2 with
          | c3 :: l3 => if is_py_space3 c3 c2 c1 then drop_spaces_rev l3 else l
          | [] => l
          end
      | [] => l
      end
  end.

Definition py_strip (s : string) : string :=
  string_of_list_ascii
    (rev (drop_spaces_rev (rev (drop_spaces (list_ascii_of_string s))))).

(** Truthiness of a Python string. *)
Definition truthy (s : string) : bool := negb (s =? "").

(** [set.add] on a Python set of strings, kept in insertion order. *)
Definition set_add (x : string) (s : list string) : list string :=
  if existsb (String.eqb x) s then s else (s ++ [x])%list.

(** [pd.Series(l).mean()] on a non-empty list. *)
Definition mean (l : list Q) : Q := (fold_right Qplus 0 l / Qnat (length l))%Q.

(** ** [display_general_deck_performance] (lines 267-328), per archetype *)

Section General.
Variable T : table.
Variable deck_a_name : string.

Definition games_as_my_deck_df : table := filter (fun r => my_deck r =? deck_a_name) T.
Definition games_as_opponent_deck_df : table := filter (fun r => opponent_deck r =? deck_a_name) T.

Definition total_appearances_deck_a : nat :=
  length games_as_my_deck_df + length games_as_opponent_deck_df.
Definition total_wins_deck_a : nat :=
  count (is_result WIN) games_as_my_deck_df + count (is_result LOSS) games_as_opponent_deck_df.
Definition total_losses_deck_a : nat := total_appearances_deck_a - total_wins_deck_a.

Definition simple_overall_win_rate_deck_a : Q :=
  if (0 <? total_appearances_deck_a)%nat
  then pct total_wins_deck_a total_appearances_deck_a else 0%Q.

Definition total_games_deck_a_first : nat :=
  count (is_first_second FIRST) games_as_my_deck_df +
  count (is_first_second SECOND) games_as_opponent_deck_df.
Definition wins_deck_a_first : nat :=
  count (is_result WIN) (filter (is_first_second FIRST) games_as_my_deck_df) +
  count (is_result LOSS) (filter (is_first_second SECOND) games_as_opponent_deck_df).
Definition win_rate_deck_a_first : option Q :=
  if (0 <? total_games_deck_a_first)%nat
  then Some (pct wins_deck_a_first total_games_deck_a_first) else None.

Definition total_games_deck_a_second : nat :=
  count (is_first_second SECOND) games_as_my_deck_df +
  count (is_first_second FIRST) games_as_opponent_deck_df.
Definition wins_deck_a_second : nat :=
  count (is_result WIN) (filter (is_first_second SECOND) games_as_my_deck_df) +
  count (is_result LOSS) (filter (is_first_second FIRST) games_as_opponent_deck_df).
Definition win_rate_deck_a_second : option Q :=
  if (0 <? total_games_deck_a_second)%nat
  then Some (pct wins_deck_a_second total_games_deck_a_second) else None.

Definition games_involving_deck_a : table :=
  filter (fun r => (my_deck r =? deck_a_name) || (opponent_deck r =? deck_a_name)) T.

(** lines 302-304 *)
Definition opponent_for_this_game (r : row) : option string :=
  if my_deck r =? deck_a_name then Some (opponent_deck r)
  else if opponent_deck r =? deck_a_name then Some (my_deck r)
  else None.

(** lines 305-306 *)
Definition valid_general_opponent (o : string) : bool :=
  truthy o && negb (o =? deck_a_name) && truthy (py_strip o) &&
  negb (py_lower (py_strip o) =? "nan").

Definition add_opponent (acc : list string) (r : row) : list string :=
  match opponent_for_this_game r with
  | Some o => if valid_general_opponent o then set_add o acc else acc
  | None => acc
  end.

Definition unique_opponents_faced_by_deck_a : list string :=
  fold_left add_opponent games_involving_deck_a [].

(** lines 310-318, for one opponent *)
Definition a_vs_opp_my_games (o : string) : table :=
  filter (fun r => (my_deck r =? deck_a_name) && (opponent_deck r =? o)) games_involving_deck_a.
Definition a_vs_opp_opponent_games (o : string) : table :=
  filter (fun r => (opponent_deck r =? deck_a_name) && (my_deck r =? o)) games_involving_deck_a.
Definition total_games_vs_specific_opponent (o : string) : nat :=
  length (a_vs_opp_my_games o) + length (a_vs_opp_opponent_games o).
Definition total_wins_for_a_vs_specific_opponent (o : string) : nat :=
  count (is_result WIN) (a_vs_opp_my_games o) + count (is_result LOSS) (a_vs_opp_opponent_games o).

Definition matchup_win_rates_for_deck_a : list Q :=
  fold_left (fun (acc : list Q) o =>
      if (0 <? total_games_vs_specific_opponent o)%nat
      then (acc ++ [pct (total_wins_for_a_vs_specific_opponent o) (total_games_vs_specific_opponent o)])%list
      else acc)
    unique_opponents_faced_by_deck_a [].

(** line 319 *)
Definition avg_matchup_wr_deck_a : option Q :=
  match matchup_win_rates_for_deck_a with
  | [] => None
  | l => Some (mean l)
  end.

End General.

(** ** ALL TYPES matchup layer of [show_analysis_section] (lines 496-503) *)

Definition case1_agg_games_total (T : table) deck ty (o : string) : table :=
  filter (fun r => opponent_deck r =? o) (focus_as_my_deck_games T deck ty).
Definition case2_agg_games_total (T : table) deck ty (o : string) : table :=
  filter (fun r => my_deck r =? o) (focus_as_opponent_deck_games T deck ty).
Definition total_games_vs_opp_deck_agg (T : table) deck ty o : nat :=
  length (case1_agg_games_total T deck ty o) + length (case2_agg_games_total T deck ty o).
Definition total_focus_wins_vs_opp_deck_agg (T : table) deck ty o : nat :=
  count (is_result WIN) (case1_agg_games_total T deck ty o) +
  count (is_result LOSS) (case2_agg_games_total T deck ty o).
Definition win_rate_vs_opp_deck_agg (T : table) deck ty o : Q :=
  let n := total_games_vs_opp_deck_agg T deck ty o in
  if (0 <? n)%nat then pct (total_focus_wins_vs_opp_deck_agg T deck ty o) n else 0%Q.

(** ** Row transformation of the symmetry law *)

Definition flip_result (s : string) : string :=
  if s =? WIN then LOSS else if s =? LOSS then WIN else s.

Definition flip_first_second (s : string) : string :=
  if s =? FIRST then SECOND else if s =? SECOND then FIRST else s.

Definition swap_row (r : row) : row := {|
  season := season r; date := date r; environment := environment r;
  my_deck := opponent_deck r; my_deck_type := opponent_deck_type r;
  opponent_deck := my_deck r; opponent_deck_type := my_deck_type r;
  first_second := flip_first_second (first_second r);
  result := flip_result (result r);
  finish_turn := finish_turn r; memo := memo r |}.

(** ** Selection of [show_analysis_section] (lines 362-366)

    The season comes from a selectbox whose first option is the
    placeholder; the environments from a multiselect. *)
Definition filter_for_analysis (T : table) (selected_season : string)
    (selected_environments : list string) : table :=
  let T1 := if truthy selected_season && negb (selected_season =? SELECT_PLACEHOLDER)
            then filter (fun r => season r =? selected_season) T else T in
  match selected_environments with
  | [] => T1
  | _ => filter (fun r => existsb (String.eqb (environment r)) selected_environments) T1
  end.

(** ** Sorting: [sorted] and [sort_values] on string keys

    Python compares strings by code point, which on UTF-8 bytes is the
    byte-wise order of [String.compare]; tuples compare lexicographically.
    The sort is modelled by insertion sort: on rows with distinct keys every
    sort returns the same order. *)

Definition lex_le (p1 p2 : string * string) : bool :=
  match String.compare (fst p1) (fst p2) with
  | Lt => true
  | Gt => false
  | Eq => String.leb (snd p1) (snd p2)
  end.

Fixpoint insert_by {A : Type} (le : A -> A -> bool) (x : A) (l : list A) : list A :=
  match l with
  | [] => [x]
  | y :: l' => if le x y then x :: l else y :: insert_by le x l'
  end.

Definition sort_by {A : Type} (le : A -> A -> bool) (l : list A) : list A :=
  fold_right (insert_by le) [] l.

(** ** Matchup tables of [show_analysis_section] (lines 438-533) *)

Record matchup_row := mkMatchup {
  opp_deck_name : string;            (* column "対戦相手デッキ" *)
  opp_deck_type : string;            (* column "対戦相手デッキの型" *)
  games_played_count : nat;
  fd_first_games_count : nat;
  focus_deck_wins_count : nat;
  win_rate_vs_opp : Q;
  avg_win_turn : option Q;
  avg_loss_turn : option Q;
  win_rate_fd_first : option Q;
  win_rate_fd_second : option Q
}.

(** [df['finish_turn'].dropna().tolist()] *)
Definition finish_turns (l : table) : list Q :=
  flat_map (fun r => match finish_turn r with Some z => [inject_Z z] | None => [] end) l.

Definition mean_opt (l : list Q) : option Q :=
  match l with [] => None | _ => Some (mean l) end.

(** The statistics computed alike by the type-specific layer (lines 449-492)
    and the ALL TYPES layer (lines 497-528) from the games [case1] where the
    focus deck is my_deck and the games [case2] where it is opponent_deck. *)
Definition matchup_stats (name type : string) (case1 case2 : table) : matchup_row :=
  let games := (length case1 + length case2)%nat in
  let wins := (count (is_result WIN) case1 + count (is_result LOSS) case2)%nat in
  let win_turns := (finish_turns (filter (is_result WIN) case1) ++
                    finish_turns (filter (is_result LOSS) case2))%list in
  let loss_turns := (finish_turns (filter (is_result LOSS) case1) ++
                     finish_turns (filter (is_result WIN) case2))%list in
  let c1_first := filter (is_first_second FIRST) case1 in
  let c2_first := filter (is_first_second SECOND) case2 in
  let c1_second := filter (is_first_second SECOND) case1 in
  let c2_second := filter (is_first_second FIRST) case2 in
  let first_games := (length c1_first + length c2_first)%nat in
  let first_wins := (count (is_result WIN) c1_first + count (is_result LOSS) c2_first)%nat in
  let second_games := (length c1_second + length c2_second)%nat in
  let second_wins := (count (is_result WIN) c1_second + count (is_result LOSS) c2_second)%nat in
  {| opp_deck_name := name; opp_deck_type := type;
     games_played_count := games; fd_first_games_count := first_games;
     focus_deck_wins_count := wins;
     win_rate_vs_opp := if (0 <? games)%nat then pct wins games else 0%Q;
     avg_win_turn := mean_opt win_turns; avg_loss_turn := mean_opt loss_turns;
     win_rate_fd_first := if (0 <? first_games)%nat then Some (pct first_wins first_games) else None;
     win_rate_fd_second := if (0 <? second_games)%nat then Some (pct second_wins second_games) else None |}.

Definition pair_eqb (p1 p2 : string * string) : bool :=
  (fst p1 =? fst p2) && (snd p1 =? snd p2).

Definition pair_add (x : string * string) (s : list (string * string)) : list (string * string) :=
  if existsb (pair_eqb x) s then s else (s ++ [x])%list.

(** lines 439-446: [(str(name), str(type))] pairs from both perspectives *)
Definition opponents_set (T : table) deck ty : list (string * string) :=
  let s1 := fold_left (fun acc r => pair_add (opponent_deck r, opponent_deck_type r) acc)
                      (focus_as_my_deck_games T deck ty) [] in
  fold_left (fun acc r => pair_add (my_deck r, my_deck_type r) acc)
            (focus_as_opponent_deck_games T deck ty) s1.

(** line 447 *)
Definition all_faced_opponents_tuples (T : table) deck ty : list (string * string) :=
  sort_by lex_le
    (filter (fun t => truthy (fst t) && negb (py_lower (fst t) =? "nan"))
            (opponents_set T deck ty)).

(** lines 453 and 466 *)
Definition case1_games (T : table) deck ty (o : string * string) : table :=
  filter (fun r => (opponent_deck r =? fst o) && (opponent_deck_type r =? snd o))
         (focus_as_my_deck_games T deck ty).
Definition case2_games (T : table) deck ty (o : string * string) : table :=
  filter (fun r => (my_deck r =? fst o) && (my_deck_type r =? snd o))
         (focus_as_opponent_deck_games T deck ty).

(** lines 448-492 *)
Definition matchup_data (T : table) deck ty : list matchup_row :=
  flat_map (fun o =>
      let c1 := case1_games T deck ty o in
      let c2 := case2_games T deck ty o in
      if (0 <? length c1 + length c2)%nat then [matchup_stats (fst o) (snd o) c1 c2] else [])
    (all_faced_opponents_tuples T deck ty).

(** lines 496-528: one ALL TYPES row per opponent name, in order of first
    appearance ([unique()]). *)
Definition agg_matchup_data (T : table) deck ty : list matchup_row :=
  flat_map (fun o =>
      let c1 := case1_agg_games_total T deck ty o in
      let c2 := case2_agg_games_total T deck ty o in
      if (0 <? length c1 + length c2)%nat then [matchup_stats o ALL_TYPES_PLACEHOLDER c1 c2] else [])
    (fold_left (fun acc m => set_add (opp_deck_name m) acc) (matchup_data T deck ty) []).

(** line 532 *)
Definition sort_type (t : string) : string :=
  if t =? ALL_TYPES_PLACEHOLDER then "0_AllTypes" else "1_" ++ t.

Definition matchup_key_le (m1 m2 : matchup_row) : bool :=
  lex_le (opp_deck_name m1, sort_type (opp_deck_type m1))
         (opp_deck_name m2, sort_type (opp_deck_type m2)).

(** lines 493-533: the combined, sorted matchup table. *)
Definition matchup_df_final (T : table) deck ty : list matchup_row :=
  match matchup_data T deck ty with
  | [] => []
  | specific => sort_by matchup_key_le (specific ++ agg_matchup_data T deck ty)%list
  end.

(** ** Statistics as the spec words them (section 4.4), for comparison *)

(** Overall win rate: wins = AsMine WIN rows + AsOpponent LOSS rows,
    appearances = |AsMine| + |AsOpponent|, 0.0 when there are none. *)
Definition overall_rate_spec (T : table) (A : string) (ty : option string) : Q :=
  let as_mine r := (my_deck r =? A) &&
                   match ty with Some t => my_deck_type r =? t | None => true end in
  let as_opp r := (opponent_deck r =? A) &&
                  match ty with Some t => opponent_deck_type r =? t | None => true end in
  let wins := (count (fun r => as_mine r && is_result WIN r) T +
               count (fun r => as_opp r && is_result LOSS r) T)%nat in
  let appearances := (count as_mine T + count as_opp T)%nat in
  if (appearances =? 0)%nat then 0%Q else pct wins appearances.

(** First/second split: the subset where the archetype held the seat
    [mine_fs] as my_deck or [opp_fs] as opponent_deck, and its rate
    (absent on an empty subset). *)
Definition split_rate_spec (T : table) (A : string) (ty : option string)
    (mine_fs opp_fs : string) : option Q :=
  let as_mine r := (my_deck r =? A) &&
                   match ty with Some t => my_deck_type r =? t | None => true end in
  let as_opp r := (opponent_deck r =? A) &&
                  match ty with Some t => opponent_deck_type r =? t | None => true end in
  let in_subset r := (as_mine r && (first_second r =? mine_fs)) ||
                     (as_opp r && (first_second r =? opp_fs)) in
  let won r := (as_mine r && (first_second r =? mine_fs) && is_result WIN r) ||
               (as_opp r && (first_second r =? opp_fs) && is_result LOSS r) in
  let size := count in_subset T in
  if (size =? 0)%nat then None else Some (pct (count won T) size).

(** The games of A (as my_deck) against B (as opponent_deck). *)
Definition pair_fwd (A B : string) (r : row) : bool :=
  ((my_deck r =? A) && (opponent_deck r =? B))%string.

(** A game between archetypes A and B, either way round. *)
Definition between (A B : string) (r : row) : Prop :=
  (my_deck r = A /\ opponent_deck r = B) \/ (my_deck r = B /\ opponent_deck r = A).

(** B is a distinct opponent faced by A in the general view: a valid name
    other than A, met in some game. *)
Definition faced_opponent (T : table) (A B : string) : Prop :=
  valid_general_opponent A B = true /\ exists r, In r T /\ between A B r.

(** The order the spec asks of the combined matchup table: by opponent
    name; within a name the ALL TYPES row first, then the other types in
    lexicographic order. *)
Definition matchup_order (m1 m2 : matchup_row) : Prop :=
  String.ltb (opp_deck_name m1) (opp_deck_name m2) = true \/
  (opp_deck_name m1 = opp_deck_name m2 /\
   (opp_deck_type m1 = ALL_TYPES_PLACEHOLDER \/
    (opp_deck_type m2 <> ALL_TYPES_PLACEHOLDER /\
     String.leb (opp_deck_type m1) (opp_deck_type m2) = true))).

(** ** [load_data], the [finish_turn] column (line 117)

    A cell of the column as [get_as_dataframe] hands it over: a number the
    sheet reader has parsed, a text that is not a number, or an empty cell
    (NaN under [na_filter=True]). *)
Inductive cell := CNum (q : Q) | CText (s : string) | CEmpty.

(** [pd.to_numeric(..., errors='coerce')]: a value that is not a number
    becomes NaN. *)
Definition to_numeric_coerce (c : cell) : option Q :=
  match c with CNum q => Some q | _ => None end.

Definition q_is_integral (q : Q) : bool := (Qnum q mod Zpos (Qden q) =? 0)%Z.
Definition q_to_Z (q : Q) : Z := (Qnum q / Zpos (Qden q))%Z.

(** [.astype('Int64')]: NaN becomes <NA>; the cast raises [TypeError] on a
    column holding a non-integral float. *)
Definition astype_Int64 (l : list (option Q)) : option (list (option Z)) :=
  if forallb (fun o => match o with Some q => q_is_integral q | None => true end) l
  then Some (map (option_map q_to_Z) l) else None.

Definition normalize_finish_turn (col : list cell) : option (list (option Z)) :=
  astype_Int64 (map to_numeric_coerce col).

(** The column [load_data] returns: an error inside its [try] is caught by
    [except Exception] and the result is [pd.DataFrame(columns=COLUMNS)],
    a table with no rows. *)
Definition load_finish_turn_column (col : list cell) : list (option Z) :=
  match normalize_finish_turn col with Some l => l | None => [] end.

Definition cell_integral (c : cell) : bool :=
  match c with CNum q => q_is_integral q | _ => true end.

(** ** Option lists of the input form and of the analysis selectors
    (lines 174-265, 358-361, 662-668) *)

Definition NEW_ENTRY_LABEL := "（新しい値を入力）".

(** [set(l)] filled by [set.add] from the left; every use is sorted
    afterwards, so the order kept here is immaterial. *)
Definition to_set (l : list string) : list string :=
  fold_left (fun acc x => set_add x acc) l [].

(** [col.astype(str).replace('', pd.NA).dropna()] on a string column. *)
Definition dropna_empty (l : list string) : list string := filter truthy l.

(** [d and d.lower() != 'nan'] *)
Definition valid_name (d : string) : bool := truthy d && negb (py_lower d =? "nan").

(** [sorted(...)] on strings. *)
Definition sort_strings (l : list string) : list string := sort_by String.leb l.

(** lines 246-250 *)
Definition get_all_analyzable_deck_names (T : table) : list string :=
  let my_decks := to_set (dropna_empty (map my_deck T)) in
  let opponent_decks := to_set (dropna_empty (map opponent_deck T)) in
  let all_decks_set := fold_left (fun acc x => set_add x acc) opponent_decks my_decks in
  sort_strings (filter valid_name all_decks_set).

(** lines 252-265; the caller passes a string, on which [pd.isna] is false. *)
Definition get_all_types_for_archetype (T : table) (deck_name : string) : list string :=
  if negb (truthy deck_name) || (deck_name =? SELECT_PLACEHOLDER) then [ALL_TYPES_PLACEHOLDER]
  else
    let my_deck_matches := filter (fun r => my_deck r =? deck_name) T in
    let opponent_deck_matches := filter (fun r => opponent_deck r =? deck_name) T in
    let types := to_set (dropna_empty (map my_deck_type my_deck_matches) ++
                         dropna_empty (map opponent_deck_type opponent_deck_matches))%list in
    ALL_TYPES_PLACEHOLDER :: sort_strings (filter valid_name types).

(** lines 174-185 of [get_unique_items_with_new_option]: the [items]
    list; [column] reads the column (a non-empty table has it),
    [predefined_options] is the optional argument. *)
Definition unique_items (T : table) (column : row -> string)
    (predefined_options : option (list string)) : list string :=
  let items0 := match predefined_options with Some p => p | None => [] end in
  let valid_items_series := dropna_empty (map column T) in
  match T, valid_items_series with
  | [], _ => items0
  | _, [] => items0
  | _, _ =>
    let unique_valid_items := sort_strings (to_set valid_items_series) in
    match predefined_options with
    | Some _ => sort_strings (to_set (items0 ++ unique_valid_items)%list)
    | None => unique_valid_items
    end
  end.

(** lines 174-192 *)
Definition get_unique_items_with_new_option (T : table) (column : row -> string)
    (predefined_options : option (list string)) : list string :=
  let items := unique_items T column predefined_options in
  ((if existsb (String.eqb NEW_ENTRY_LABEL) items then [] else [NEW_ENTRY_LABEL]) ++
   filter (fun item => negb (item =? NEW_ENTRY_LABEL)) items)%list.

(** [not x or x == NEW_ENTRY_LABEL or pd.isna(x)] on a value read with
    [st.session_state.get], which is None when the key is missing. *)
Definition missing_selection (x : option string) : bool :=
  match x with
  | None => true
  | Some s => negb (truthy s) || (s =? NEW_ENTRY_LABEL)
  end.

(** rows whose season is [s] ([df['season'].astype(str) == str(s)]) *)
Definition season_rows (T : table) (s : string) : table :=
  filter (fun r => season r =? s) T.

(** lines 194-211 *)
Definition get_decks_for_season_input (T : table) (selected_season : option string) : list string :=
  let df_to_use :=
    match selected_season with
    | Some s => if truthy s && negb (s =? NEW_ENTRY_LABEL) then season_rows T s else T
    | None => T
    end in
  match df_to_use with
  | [] => [NEW_ENTRY_LABEL]
  | _ =>
    let deck_names_set :=
      fold_left (fun acc (col : row -> string) =>
          fold_left (fun acc d => set_add d acc)
                    (filter valid_name (dropna_empty (map col df_to_use))) acc)
        [my_deck; opponent_deck] [] in
    match deck_names_set with
    | [] => [NEW_ENTRY_LABEL]
    | _ => NEW_ENTRY_LABEL :: sort_strings deck_names_set
    end
  end.

(** lines 213-243 *)
Definition get_types_for_deck_and_season_input (T : table)
    (selected_season selected_deck_name : option string) : list string :=
  if missing_selection selected_deck_name || missing_selection selected_season
  then [NEW_ENTRY_LABEL]
  else
    match selected_season, selected_deck_name with
    | Some s, Some d =>
      let df_filtered := season_rows T s in
      match df_filtered with
      | [] => [NEW_ENTRY_LABEL]
      | _ =>
        let my_deck_matches := filter (fun r => my_deck r =? d) df_filtered in
        let opponent_deck_matches := filter (fun r => opponent_deck r =? d) df_filtered in
        let types :=
          fold_left (fun acc t => set_add t acc)
            (filter valid_name (dropna_empty (map opponent_deck_type opponent_deck_matches)))
            (fold_left (fun acc t => set_add t acc)
               (filter valid_name (dropna_empty (map my_deck_type my_deck_matches))) []) in
        match types with
        | [] => [NEW_ENTRY_LABEL]
        | _ => NEW_ENTRY_LABEL :: sort_strings types
        end
      end
    | _, _ => [NEW_ENTRY_LABEL]
    end.

(** lines 662-668 of [main]: the environment options of the input form.
    A string column has no NaN, so [df['environment'].dropna()] is empty
    exactly when the table is. *)
Definition predefined_environments : list string := ["Waic内"; "野良"; "大会"].

Definition environment_options_input (T : table) : list string :=
  let valid_items := dropna_empty (map environment T) in
  let unique_past_environments :=
    match valid_items with [] => [] | _ => sort_strings (to_set valid_items) end in
  let current_environments := to_set (predefined_environments ++ unique_past_environments)%list in
  NEW_ENTRY_LABEL :: sort_strings (filter (fun opt => truthy opt && negb (opt =? NEW_ENTRY_LABEL))
                                          current_environments).

(** lines 358-361 of [show_analysis_section]: the season and environment
    options of the analysis filters. *)
Definition all_seasons (T : table) : list string :=
  SELECT_PLACEHOLDER :: sort_strings (filter valid_name (to_set (dropna_empty (map season T)))).

Definition all_environments (T : table) : list string :=
  SELECT_PLACEHOLDER :: sort_strings (filter valid_name (to_set (dropna_empty (map environment T)))).

(** ** Submission of the input form ([main], lines 715-757) *)

(** The session-state keys the submit button reads; the two selectboxes
    with fixed options always hold a value. *)
Record form_state := mkForm {
  inp_season_select : option string; inp_season_new : option string;
  inp_environment_select : option string; inp_environment_new : option string;
  inp_my_deck : option string; inp_my_deck_new : option string;
  inp_my_deck_type : option string; inp_my_deck_type_new : option string;
  inp_opponent_deck : option string; inp_opponent_deck_new : option string;
  inp_opponent_deck_type : option string; inp_opponent_deck_type_new : option string;
  inp_first_second : string; inp_result : string;
  inp_finish_turn : option Z; inp_memo : option string
}.

(** [get(new_key, '') if get(select_key) == NEW_ENTRY_LABEL else get(select_key)] *)
Definition final_value (select new : option string) : option string :=
  match select with
  | Some s => if s =? NEW_ENTRY_LABEL then Some (match new with Some n => n | None => "" end)
              else select
  | None => None
  end.

Definition final_season F := final_value (inp_season_select F) (inp_season_new F).
Definition final_my_deck F := final_value (inp_my_deck F) (inp_my_deck_new F).
Definition final_my_deck_type F := final_value (inp_my_deck_type F) (inp_my_deck_type_new F).
Definition final_opponent_deck F := final_value (inp_opponent_deck F) (inp_opponent_deck_new F).
Definition final_opponent_deck_type F :=
  final_value (inp_opponent_deck_type F) (inp_opponent_deck_type_new F).
(** lines 721-722 *)
Definition final_environment (F : form_state) : option string :=
  match final_value (inp_environment_select F) (inp_environment_new F) with
  | Some e => if e =? NEW_ENTRY_LABEL then Some "" else Some e
  | None => None
  end.

(** lines 734-741 *)
Definition error_messages (F : form_state) : list string :=
  let check (v : option string) (msg : string) := if missing_selection v then [msg] else [] in
  (check (final_season F) "シーズンを入力または選択してください。" ++
   check (final_my_deck F) "使用デッキ名を入力または選択してください。" ++
   check (final_my_deck_type F) "使用デッキの型を入力または選択してください。" ++
   check (final_opponent_deck F) "相手デッキ名を入力または選択してください。" ++
   check (final_opponent_deck_type F) "相手デッキの型を入力または選択してください。" ++
   check (final_environment F) "対戦環境を選択または入力してください。" ++
   match inp_finish_turn F with None => ["決着ターンを入力してください。"] | Some _ => [] end)%list.

Definition value_or_empty (o : option string) : string :=
  match o with Some s => s | None => "" end.

(** lines 744-757: the record handed to [save_data], or None when an error
    message is shown; [date_val] is the date the form resolved. *)
Definition submitted_record (F : form_state) (date_val : option Z) : option row :=
  match error_messages F with
  | [] => Some {| season := value_or_empty (final_season F); date := date_val;
                  environment := value_or_empty (final_environment F);
                  my_deck := value_or_empty (final_my_deck F);
                  my_deck_type := value_or_empty (final_my_deck_type F);
                  opponent_deck := value_or_empty (final_opponent_deck F);
                  opponent_deck_type := value_or_empty (final_opponent_deck_type F);
                  first_second := inp_first_second F; result := inp_result F;
                  finish_turn := inp_finish_turn F;
                  memo := value_or_empty (inp_memo F) |}
  | _ => None
  end.

(** ** Memo records of the focus deck ([show_analysis_section], lines 546-550) *)

Definition memo_filter (r : row) : bool :=
  negb (py_strip (memo r) =? "") && negb (py_lower (memo r) =? "nan").

Definition option_Z_eqb (a b : option Z) : bool :=
  match a, b with
  | Some x, Some y => Z.eqb x y
  | None, None => true
  | _, _ => false
  end.

(** Equality of all columns, as [drop_duplicates] compares rows (missing
    values equal to each other). *)
Definition row_eqb (r1 r2 : row) : bool :=
  (season r1 =? season r2) && option_Z_eqb (date r1) (date r2) &&
  (environment r1 =? environment r2) && (my_deck r1 =? my_deck r2) &&
  (my_deck_type r1 =? my_deck_type r2) && (opponent_deck r1 =? opponent_deck r2) &&
  (opponent_deck_type r1 =? opponent_deck_type r2) && (first_second r1 =? first_second r2) &&
  (result r1 =? result r2) && option_Z_eqb (finish_turn r1) (finish_turn r2) &&
  (memo r1 =? memo r2).

(** [drop_duplicates()]: the first of equal rows is kept. *)
Definition drop_duplicates (l : table) : table :=
  fold_left (fun acc r => if existsb (row_eqb r) acc then acc else (acc ++ [r])%list) l [].

Definition all_memo_games (T : table) deck ty : table :=
  drop_duplicates (filter memo_filter (focus_as_my_deck_games T deck ty) ++
                   filter memo_filter (focus_as_opponent_deck_games T deck ty))%list.

(** ** Rows of the general overview ([display_general_deck_performance],
    lines 269-350) *)

Record general_row := mkGeneral {
  g_deck : string;                     (* "デッキアーキタイプ" *)
  g_total_appearances : nat;           (* "総登場回数" *)
  g_first_games : nat;                 (* the count shown beside it *)
  g_total_wins : nat;                  (* "総勝利数" *)
  g_total_losses : nat;                (* "総敗北数" *)
  g_overall_rate : Q;                  (* "勝率 (%) [総合]" *)
  g_avg_matchup : option Q;            (* "平均マッチアップ勝率 (%)" *)
  g_first_rate : option Q;             (* "先攻時勝率 (%)" *)
  g_second_rate : option Q             (* "後攻時勝率 (%)" *)
}.

Definition general_performance_data (T : table) : list general_row :=
  flat_map (fun d =>
      if negb (truthy d) then []
      else if (0 <? total_appearances_deck_a T d)%nat then
        [{| g_deck := d; g_total_appearances := total_appearances_deck_a T d;
            g_first_games := total_games_deck_a_first T d;
            g_total_wins := total_wins_deck_a T d; g_total_losses := total_losses_deck_a T d;
            g_overall_rate := simple_overall_win_rate_deck_a T d;
            g_avg_matchup := avg_matchup_wr_deck_a T d;
            g_first_rate := win_rate_deck_a_first T d;
            g_second_rate := win_rate_deck_a_second T d |}]
      else [])
    (get_all_analyzable_deck_names T).

(** [sort_values(by="平均マッチアップ勝率 (%)", ascending=False, na_position='last')] *)
Definition avg_desc_le (g1 g2 : general_row) : bool :=
  match g_avg_matchup g1, g_avg_matchup g2 with
  | Some a, Some b => Qle_bool b a
  | Some _, None => true
  | None, Some _ => false
  | None, None => true
  end.

Definition gen_perf_df_sorted (T : table) : list general_row :=
  sort_by avg_desc_le (general_performance_data T).

(** The order the overview's sort produces: higher average matchup rate
    first, rows without one last. *)
Definition ranked_before (g1 g2 : general_row) : Prop :=
  match g_avg_matchup g1, g_avg_matchup g2 with
  | Some a, Some b => (b <= a)%Q
  | _, None => True
  | None, Some _ => False
  end.

(** ** Consistency of a displayed matchup row: the counts and rates the
    table shows for one opponent, with its games going first. *)
Definition matchup_row_consistent (m : matchup_row) : Prop :=
  (0 < games_played_count m /\
   focus_deck_wins_count m <= games_played_count m /\
   fd_first_games_count m <= games_played_count m /\
   (0 <= win_rate_vs_opp m <= 100)%Q /\
   (forall q, win_rate_fd_first m = Some q -> (0 <= q <= 100)%Q) /\
   (forall q, win_rate_fd_second m = Some q -> (0 <= q <= 100)%Q))%nat.

(** A game whose first/second cell is neither "先攻" nor "後攻": the focus
    first/second split of lines 414-423 counts it on neither side. *)
Definition undetermined_turn_order (r : row) : bool :=
  negb (is_first_second FIRST r || is_first_second SECOND r).

(** ** The [on_change] callbacks of the input form ([main], lines 623-642)

    A key absent from [st.session_state] ([None]) is left absent; a
    present selectbox key is set back to the new-entry label and a present
    text-input key to the empty string. *)
Definition reset_select (v : option string) : option string :=
  match v with Some _ => Some NEW_ENTRY_LABEL | None => None end.
Definition reset_new (v : option string) : option string :=
  match v with Some _ => Some "" | None => None end.

Definition on_season_select_change_input_form (F : form_state) : form_state := {|
  inp_season_select := inp_season_select F; inp_season_new := inp_season_new F;
  inp_environment_select := inp_environment_select F;
  inp_environment_new := inp_environment_new F;
  inp_my_deck := reset_select (inp_my_deck F); inp_my_deck_new := reset_new (inp_my_deck_new F);
  inp_my_deck_type := reset_select (inp_my_deck_type F);
  inp_my_deck_type_new := reset_new (inp_my_deck_type_new F);
  inp_opponent_deck := reset_select (inp_opponent_deck F);
  inp_opponent_deck_new := reset_new (inp_opponent_deck_new F);
  inp_opponent_deck_type := reset_select (inp_opponent_deck_type F);
  inp_opponent_deck_type_new := reset_new (inp_opponent_deck_type_new F);
  inp_first_second := inp_first_second F; inp_result := inp_result F;
  inp_finish_turn := inp_finish_turn F; inp_memo := inp_memo F |}.

Definition on_my_deck_select_change_input_form (F : form_state) : form_state := {|
  inp_season_select := inp_season_select F; inp_season_new := inp_season_new F;
  inp_environment_select := inp_environment_select F;
  inp_environment_new := inp_environment_new F;
  inp_my_deck := inp_my_deck F; inp_my_deck_new := inp_my_deck_new F;
  inp_my_deck_type := reset_select (inp_my_deck_type F);
  inp_my_deck_type_new := reset_new (inp_my_deck_type_new F);
  inp_opponent_deck := inp_opponent_deck F; inp_opponent_deck_new := inp_opponent_deck_new F;
  inp_opponent_deck_type := inp_opponent_deck_type F;
  inp_opponent_deck_type_new := inp_opponent_deck_type_new F;
  inp_first_second := inp_first_second F; inp_result := inp_result F;
  inp_finish_turn := inp_finish_turn F; inp_memo := inp_memo F |}.

Definition on_opponent_deck_select_change_input_form (F : form_state) : form_state := {|
  inp_season_select := inp_season_select F; inp_season_new := inp_season_new F;
  inp_environment_select := inp_environment_select F;
  inp_environment_new := inp_environment_new F;
  inp_my_deck := inp_my_deck F; inp_my_deck_new := inp_my_deck_new F;
  inp_my_deck_type := inp_my_deck_type F; inp_my_deck_type_new := inp_my_deck_type_new F;
  inp_opponent_deck := inp_opponent_deck F; inp_opponent_deck_new := inp_opponent_deck_new F;
  inp_opponent_deck_type := reset_select (inp_opponent_deck_type F);
  inp_opponent_deck_type_new := reset_new (inp_opponent_deck_type_new F);
  inp_first_second := inp_first_second F; inp_result := inp_result F;
  inp_finish_turn := inp_finish_turn F; inp_memo := inp_memo F |}.

(** ** Record list of [main] (lines 778-786)

    Dated rows sorted by date, newest first, then the rows without a date
    in their recorded order. *)
Definition dated (r : row) : bool := match date r with Some _ => true | None => false end.
Definition date_key (r : row) : Z := match date r with Some d => d | None => 0%Z end.
Definition date_desc_le (r1 r2 : row) : bool := Z.leb (date_key r2) (date_key r1).

Definition df_display_sorted (T : table) : table :=
  (sort_by date_desc_le (filter dated T) ++ filter (fun r => negb (dated r)) T)%list.

(** * Proofs *)

Open Scope nat_scope.
Open Scope list_scope.

(** ** Counting lemmas *)

Lemma filter_filter_and {A : Type} (p q : A -> bool) (l : list A) :
  filter p (filter q l) = filter (fun x => q x && p x) l.
Proof.
  induction l as [|x l IH]; simpl; [reflexivity|].
  destruct (q x); simpl; [destruct (p x); simpl; rewrite IH|]; reflexivity || exact IH.
Qed.

Lemma count_filter (p q : row -> bool) (l : table) :
  count p (filter q l) = count (fun x => q x && p x) l.
Proof. unfold count. now rewrite filter_filter_and. Qed.

Lemma count_ext (p q : row -> bool) (l : table) :
  (forall x, p x = q x) -> count p l = count q l.
Proof. intros H. unfold count. now rewrite (filter_ext p q H). Qed.

Lemma count_map (p : row -> bool) (f : row -> row) (l : table) :
  count p (map f l) = count (fun x => p (f x)) l.
Proof.
  unfold count. induction l as [|x l IH]; simpl; [reflexivity|].
  destruct (p (f x)); simpl; now rewrite IH.
Qed.

Lemma count_app (p : row -> bool) (l1 l2 : table) :
  count p (l1 ++ l2) = count p l1 + count p l2.
Proof. unfold count. now rewrite filter_app, length_app. Qed.

Lemma count_le (p : row -> bool) (l : table) : count p l <= length l.
Proof.
  unfold count. induction l as [|x l IH]; simpl; [lia|].
  destruct (p x); simpl; lia.
Qed.

(** Disjoint predicates: the size of the union is the sum of the sizes. *)
Lemma count_orb_disjoint (p q : row -> bool) (l : table) :
  (forall x, p x = true -> q x = false) ->
  count (fun x => p x || q x) l = count p l + count q l.
Proof.
  intros H. unfold count. induction l as [|x l IH]; simpl; [reflexivity|].
  destruct (p x) eqn:Ep; simpl.
  - rewrite (H x Ep). simpl. now rewrite IH.
  - destruct (q x); simpl; rewrite IH; lia.
Qed.

Lemma WIN_LOSS_neq : (WIN =? LOSS)%string = false.
Proof. reflexivity. Qed.

Lemma FIRST_SECOND_neq : (FIRST =? SECOND)%string = false.
Proof. reflexivity. Qed.

Lemma flip_result_WIN (s : string) : (flip_result s =? WIN)%string = (s =? LOSS)%string.
Proof.
  unfold flip_result.
  destruct (s =? WIN)%string eqn:E1; [apply String.eqb_eq in E1; now subst|].
  destruct (s =? LOSS)%string eqn:E2; [reflexivity|exact E1].
Qed.

Lemma flip_result_LOSS (s : string) : (flip_result s =? LOSS)%string = (s =? WIN)%string.
Proof.
  unfold flip_result.
  destruct (s =? WIN)%string eqn:E1; [reflexivity|].
  destruct (s =? LOSS)%string eqn:E2; [reflexivity|exact E2].
Qed.

Lemma focus_my_swap A ty r :
  cond_my_deck_focus A ty (swap_row r) = cond_opponent_deck_focus A ty r.
Proof. reflexivity. Qed.

Lemma focus_opp_swap A ty r :
  cond_opponent_deck_focus A ty (swap_row r) = cond_my_deck_focus A ty r.
Proof. reflexivity. Qed.

Lemma rate_guard (w n : nat) :
  (if (0 <? n)%nat then pct w n else 0%Q) = (if (n =? 0)%nat then 0%Q else pct w n).
Proof. destruct n; reflexivity. Qed.

Lemma general_my_games (T : table) (A : string) :
  games_as_my_deck_df T A = focus_as_my_deck_games T A None.
Proof.
  apply filter_ext. intros r. unfold cond_my_deck_focus. simpl.
  now rewrite andb_true_r.
Qed.

Lemma general_opp_games (T : table) (A : string) :
  games_as_opponent_deck_df T A = focus_as_opponent_deck_games T A None.
Proof.
  apply filter_ext. intros r. unfold cond_opponent_deck_focus. simpl.
  now rewrite andb_true_r.
Qed.

Lemma general_rate_is_focus_rate (T : table) (A : string) :
  simple_overall_win_rate_deck_a T A = win_rate_for_focus_deck T A None.
Proof.
  unfold simple_overall_win_rate_deck_a, total_appearances_deck_a, total_wins_deck_a.
  rewrite general_my_games, general_opp_games. reflexivity.
Qed.

Lemma focus_rate_spec (T : table) (A : string) (ty : option string) :
  win_rate_for_focus_deck T A ty = overall_rate_spec T A (narrowing ty).
Proof.
  unfold win_rate_for_focus_deck, overall_rate_spec, total_appearances,
    total_wins_for_focus_deck, focus_as_my_deck_games, focus_as_opponent_deck_games.
  rewrite !count_filter. cbv zeta. rewrite rate_guard. reflexivity.
Qed.

(** ** C1 *)

(** C1: for every table and archetype, optionally narrowed to one type, the
    overall win rate computed by [show_analysis_section] (line 409) and by
    [display_general_deck_performance] (line 285) is wins / appearances * 100,
    wins counting the AsMine WIN rows and the AsOpponent LOSS rows, and it is
    0.0 when there are no appearances; the computation is total. *)
Theorem overall_win_rate_matches_spec (T : table) (A : string) (ty : option string) :
  win_rate_for_focus_deck T A ty = overall_rate_spec T A (narrowing ty) /\
  simple_overall_win_rate_deck_a T A = overall_rate_spec T A None.
Proof.
  split.
  - apply focus_rate_spec.
  - rewrite general_rate_is_focus_rate. apply focus_rate_spec.
Qed.

(** Scenarios 1 and 2 of the spec, evaluated. *)
Definition mk_game (a b fs res : string) : row :=
  mkRow "S1" None "E" a "t" b "t" fs res (Some 4%Z) "".

Example scenario1_rates :
  win_rate_for_focus_deck [mk_game "X" "Y" FIRST WIN] "X" None = 100%Q /\
  win_rate_for_focus_deck [mk_game "X" "Y" FIRST WIN] "Y" None = 0%Q.
Proof. split; reflexivity. Qed.

Example scenario2_rate :
  (win_rate_for_focus_deck [mk_game "X" "Y" FIRST WIN; mk_game "Y" "X" SECOND WIN] "X" None == 50)%Q.
Proof. reflexivity. Qed.

(** ** C2 *)

Lemma swap_counts (T : table) (A : string) (ty : option string) :
  total_appearances (map swap_row T) A ty = total_appearances T A ty /\
  total_wins_for_focus_deck (map swap_row T) A ty = total_wins_for_focus_deck T A ty.
Proof.
  unfold total_appearances, total_wins_for_focus_deck,
    focus_as_my_deck_games, focus_as_opponent_deck_games.
  rewrite !count_filter.
  change (length (filter (cond_my_deck_focus A ty) (map swap_row T)))
    with (count (cond_my_deck_focus A ty) (map swap_row T)).
  change (length (filter (cond_opponent_deck_focus A ty) (map swap_row T)))
    with (count (cond_opponent_deck_focus A ty) (map swap_row T)).
  change (length (filter (cond_my_deck_focus A ty) T))
    with (count (cond_my_deck_focus A ty) T).
  change (length (filter (cond_opponent_deck_focus A ty) T))
    with (count (cond_opponent_deck_focus A ty) T).
  rewrite !count_map. split.
  - rewrite (count_ext _ _ T (focus_my_swap A ty)), (count_ext _ _ T (focus_opp_swap A ty)).
    lia.
  - rewrite (count_ext (fun x => cond_my_deck_focus A ty (swap_row x) && is_result WIN (swap_row x))
                       (fun x => cond_opponent_deck_focus A ty x && is_result LOSS x)).
    2:{ intros x. unfold is_result. simpl. now rewrite flip_result_WIN. }
    rewrite (count_ext (fun x => cond_opponent_deck_focus A ty (swap_row x) && is_result LOSS (swap_row x))
                       (fun x => cond_my_deck_focus A ty x && is_result WIN x)).
    2:{ intros x. unfold is_result. simpl. now rewrite flip_result_LOSS. }
    lia.
Qed.

(** C2: swapping the two decks (and their types) of every row while
    flipping WIN/LOSS and FIRST/SECOND leaves the overall win rate of every
    archetype, narrowed to a type or not, unchanged, in the focus view and in
    the general view. *)
Theorem overall_win_rate_swap_invariant (T : table) (A : string) (ty : option string) :
  win_rate_for_focus_deck (map swap_row T) A ty = win_rate_for_focus_deck T A ty /\
  simple_overall_win_rate_deck_a (map swap_row T) A = simple_overall_win_rate_deck_a T A.
Proof.
  assert (H : forall ty', win_rate_for_focus_deck (map swap_row T) A ty' =
                          win_rate_for_focus_deck T A ty').
  { intros ty'. destruct (swap_counts T A ty') as [H1 H2].
    unfold win_rate_for_focus_deck. now rewrite H1, H2. }
  split; [apply H|]. rewrite !general_rate_is_focus_rate. apply H.
Qed.

(** ** C6 *)

Lemma split_counts (T : table) (m o : row -> bool) (f1 f2 : string) :
  (f1 =? f2)%string = false ->
  count (is_first_second f1) (filter m T) + count (is_first_second f2) (filter o T) =
    count (fun r => (m r && (first_second r =? f1)) || (o r && (first_second r =? f2)))%string T /\
  count (is_result WIN) (filter (is_first_second f1) (filter m T)) +
  count (is_result LOSS) (filter (is_first_second f2) (filter o T)) =
    count (fun r => (m r && (first_second r =? f1) && is_result WIN r) ||
                    (o r && (first_second r =? f2) && is_result LOSS r))%string T.
Proof.
  intros Hne.
  assert (Hdis : forall r, (first_second r =? f1)%string = true ->
                           (first_second r =? f2)%string = false).
  { intros r E. apply String.eqb_eq in E. now rewrite E. }
  rewrite !count_filter. split.
  - rewrite count_orb_disjoint.
    + reflexivity.
    + intros r E. apply andb_true_iff in E as [_ E].
      apply andb_false_iff. right. now apply Hdis.
  - rewrite count_orb_disjoint.
    + f_equal; apply count_ext; intros r; unfold is_first_second;
        destruct (m r), (o r), (first_second r =? f1)%string,
          (first_second r =? f2)%string, (is_result WIN r), (is_result LOSS r); reflexivity.
    + intros r E. apply andb_true_iff in E as [E _]. apply andb_true_iff in E as [_ E].
      apply andb_false_iff. left. apply andb_false_iff. right. now apply Hdis.
Qed.

Lemma split_guard (w n : nat) :
  (if (0 <? n)%nat then Some (pct w n) else None) =
  (if (n =? 0)%nat then None else Some (pct w n)).
Proof. destruct n; reflexivity. Qed.

(** C6: the "went first" subset of an archetype is its AsMine rows with
    FIRST and its AsOpponent rows with SECOND; the first-turn win rate is
    absent when that subset is empty and otherwise the symmetric win count of
    the subset over its size times 100; the same with FIRST and SECOND
    exchanged for the second-turn rate; in the focus view and in the general
    view. *)
Theorem first_second_split_matches_spec (T : table) (A : string) (ty : option string) :
  win_rate_focus_first T A ty = split_rate_spec T A (narrowing ty) FIRST SECOND /\
  win_rate_focus_second T A ty = split_rate_spec T A (narrowing ty) SECOND FIRST /\
  win_rate_deck_a_first T A = split_rate_spec T A None FIRST SECOND /\
  win_rate_deck_a_second T A = split_rate_spec T A None SECOND FIRST.
Proof.
  assert (Hf : forall ty', win_rate_focus_first T A ty' =
                           split_rate_spec T A (narrowing ty') FIRST SECOND).
  { intros ty'. unfold win_rate_focus_first, total_games_focus_first, wins_focus_first,
      focus_as_my_deck_games, focus_as_opponent_deck_games, split_rate_spec.
    destruct (split_counts T (cond_my_deck_focus A ty') (cond_opponent_deck_focus A ty')
                FIRST SECOND eq_refl) as [H1 H2].
    rewrite H1, H2, split_guard. reflexivity. }
  assert (Hs : forall ty', win_rate_focus_second T A ty' =
                           split_rate_spec T A (narrowing ty') SECOND FIRST).
  { intros ty'. unfold win_rate_focus_second, total_games_focus_second, wins_focus_second,
      focus_as_my_deck_games, focus_as_opponent_deck_games, split_rate_spec.
    destruct (split_counts T (cond_my_deck_focus A ty') (cond_opponent_deck_focus A ty')
                SECOND FIRST eq_refl) as [H1 H2].
    rewrite H1, H2, split_guard. reflexivity. }
  split; [apply Hf|]. split; [apply Hs|]. split.
  - transitivity (win_rate_focus_first T A None); [|apply (Hf None)]. unfold win_rate_deck_a_first, total_games_deck_a_first,
      wins_deck_a_first, win_rate_focus_first, total_games_focus_first, wins_focus_first.
    now rewrite general_my_games, general_opp_games.
  - transitivity (win_rate_focus_second T A None); [|apply (Hs None)]. unfold win_rate_deck_a_second, total_games_deck_a_second,
      wins_deck_a_second, win_rate_focus_second, total_games_focus_second, wins_focus_second.
    now rewrite general_my_games, general_opp_games.
Qed.

(** ** C9 *)

Definition analysis_keep (selected_season : string) (selected_environments : list string)
    (r : row) : bool :=
  (if truthy selected_season && negb (selected_season =? SELECT_PLACEHOLDER)
   then season r =? selected_season else true)%string &&
  match selected_environments with
  | [] => true
  | _ => existsb (String.eqb (environment r)) selected_environments
  end.

Lemma filter_for_analysis_as_filter (T : table) s e :
  filter_for_analysis T s e = filter (analysis_keep s e) T.
Proof.
  unfold filter_for_analysis, analysis_keep.
  destruct (truthy s && negb (s =? SELECT_PLACEHOLDER))%string; destruct e as [|x e].
  - apply filter_ext. intros r. now rewrite andb_true_r.
  - apply filter_filter_and.
  - induction T as [|r T IH]; simpl; [reflexivity|]. now f_equal.
  - reflexivity.
Qed.

Lemma filter_idem {A : Type} (p : A -> bool) (l : list A) :
  filter p (filter p l) = filter p l.
Proof.
  rewrite filter_filter_and. apply filter_ext. intros x. apply andb_diag.
Qed.

(** C9: filtering the analysed table twice with the same season and
    environment selection gives the same table as filtering it once. *)
Theorem filter_for_analysis_idempotent (T : table) (selected_season : string)
    (selected_environments : list string) :
  filter_for_analysis (filter_for_analysis T selected_season selected_environments)
    selected_season selected_environments =
  filter_for_analysis T selected_season selected_environments.
Proof. rewrite !filter_for_analysis_as_filter. apply filter_idem. Qed.

(** ** Rates as exact fractions *)

Lemma pct_succ (w n : nat) :
  (pct w (S n) == (Z.of_nat w * 100 # Pos.of_succ_nat n))%Q.
Proof.
  unfold pct, Qnat. change (Z.of_nat (S n)) with (Z.pos (Pos.of_succ_nat n)).
  unfold Qeq, Qdiv, Qmult, Qinv, inject_Z. cbn [Qnum Qden].
  rewrite !Pos.mul_1_r, Pos.mul_1_l. lia.
Qed.

Ltac pct_arith :=
  rewrite !pct_succ; unfold Qle, Qlt; cbn [Qnum Qden]; rewrite ?Zpos_P_of_succ_nat; nia.

Lemma pct_le (w1 n1 w2 n2 : nat) :
  (0 < n1)%nat -> (0 < n2)%nat -> (w1 * n2 <= w2 * n1)%nat -> (pct w1 n1 <= pct w2 n2)%Q.
Proof.
  intros H1 H2 H. destruct n1 as [|n1]; [lia|]. destruct n2 as [|n2]; [lia|].
  pct_arith.
Qed.

Lemma pct_lt (w1 n1 w2 n2 : nat) :
  (0 < n1)%nat -> (0 < n2)%nat -> (w1 * n2 < w2 * n1)%nat -> (pct w1 n1 < pct w2 n2)%Q.
Proof.
  intros H1 H2 H. destruct n1 as [|n1]; [lia|]. destruct n2 as [|n2]; [lia|].
  pct_arith.
Qed.

Lemma pct_complement (w1 w2 n : nat) :
  (0 < n)%nat -> (w1 + w2 = n)%nat -> (pct w1 n == 100 - pct w2 n)%Q.
Proof.
  intros H1 H. destruct n as [|n]; [lia|].
  rewrite !pct_succ. unfold Qeq, Qminus, Qplus, Qopp. cbn [Qnum Qden].
  rewrite ?Zpos_P_of_succ_nat. nia.
Qed.

Lemma pct_zero (n : nat) : (pct 0 n == 0)%Q.
Proof. unfold Qeq. reflexivity. Qed.

(** Appearances and wins of the focus deck as counts over the table. *)
Lemma focus_counts (T : table) (A : string) (ty : option string) :
  total_appearances T A ty =
    count (cond_my_deck_focus A ty) T + count (cond_opponent_deck_focus A ty) T /\
  total_wins_for_focus_deck T A ty =
    count (fun r => cond_my_deck_focus A ty r && is_result WIN r) T +
    count (fun r => cond_opponent_deck_focus A ty r && is_result LOSS r) T.
Proof.
  unfold total_appearances, total_wins_for_focus_deck,
    focus_as_my_deck_games, focus_as_opponent_deck_games.
  rewrite !count_filter. split; reflexivity.
Qed.

Lemma focus_wins_le (T : table) (A : string) (ty : option string) :
  total_wins_for_focus_deck T A ty <= total_appearances T A ty.
Proof.
  unfold total_wins_for_focus_deck, total_appearances.
  pose proof (count_le (is_result WIN) (focus_as_my_deck_games T A ty)).
  pose proof (count_le (is_result LOSS) (focus_as_opponent_deck_games T A ty)).
  lia.
Qed.

(** ** C10 *)

(** C10 (as amended): a row whose result is neither WIN nor LOSS and that
    involves archetype A (as my_deck or as opponent_deck, within the type
    narrowing if any) adds to A's appearances once for each side on which A
    stands, [k] times with [k] 1 or 2 (2 for a mirror row), and nothing to
    A's wins, so it adds [k] losses; A's overall win rate never goes up,
    and goes strictly down when A already had a win.  As A is any
    archetype of the row, this holds for both archetypes of the row.  The
    general view is the case of no narrowing. *)
Theorem non_result_row_counts_as_loss (T : table) (A : string) (ty : option string) (r : row) :
  (result r =? WIN)%string = false -> (result r =? LOSS)%string = false ->
  (cond_my_deck_focus A ty r || cond_opponent_deck_focus A ty r)%bool = true ->
  let k := (if cond_my_deck_focus A ty r then 1 else 0) +
           (if cond_opponent_deck_focus A ty r then 1 else 0) in
  1 <= k /\
  total_wins_for_focus_deck (T ++ [r]) A ty = total_wins_for_focus_deck T A ty /\
  total_appearances (T ++ [r]) A ty = total_appearances T A ty + k /\
  total_losses_for_focus_deck (T ++ [r]) A ty = total_losses_for_focus_deck T A ty + k /\
  (win_rate_for_focus_deck (T ++ [r]) A ty <= win_rate_for_focus_deck T A ty)%Q /\
  (0 < total_wins_for_focus_deck T A ty ->
   (win_rate_for_focus_deck (T ++ [r]) A ty < win_rate_for_focus_deck T A ty)%Q).
Proof.
  intros HW HL Hinv k.
  destruct (focus_counts T A ty) as [Ha Hw].
  destruct (focus_counts (T ++ [r]) A ty) as [Ha' Hw'].
  rewrite !count_app in Ha', Hw'.
  unfold count at 2 4 in Ha'. unfold count at 2 4 in Hw'. simpl in Ha', Hw'.
  unfold is_result in Hw, Hw'. rewrite HW, HL, !andb_false_r in Hw'. simpl in Hw'.
  assert (Hwin : total_wins_for_focus_deck (T ++ [r]) A ty = total_wins_for_focus_deck T A ty)
    by lia.
  assert (Hk : 1 <= k /\ total_appearances (T ++ [r]) A ty = total_appearances T A ty + k).
  { unfold k. apply orb_true_iff in Hinv.
    destruct (cond_my_deck_focus A ty r), (cond_opponent_deck_focus A ty r);
      simpl in Ha'; destruct Hinv as [E|E]; try discriminate; simpl; lia. }
  destruct Hk as [Hk Happ].
  pose proof (focus_wins_le T A ty) as Hle.
  assert (Hrate : (0 < total_wins_for_focus_deck T A ty ->
     (win_rate_for_focus_deck (T ++ [r]) A ty < win_rate_for_focus_deck T A ty)%Q) /\
     (win_rate_for_focus_deck (T ++ [r]) A ty <= win_rate_for_focus_deck T A ty)%Q).
  { unfold win_rate_for_focus_deck. rewrite Hwin.
    set (w := total_wins_for_focus_deck T A ty) in *.
    set (n := total_appearances T A ty) in *.
    set (n' := total_appearances (T ++ [r]) A ty) in *.
    destruct (0 <? n')%nat eqn:E'; [|apply Nat.ltb_ge in E'; lia].
    destruct (0 <? n)%nat eqn:E.
    - apply Nat.ltb_lt in E. split.
      + intros Hpos. apply pct_lt; nia.
      + apply pct_le; nia.
    - apply Nat.ltb_ge in E. assert (w = 0) as -> by lia. split; [lia|].
      rewrite pct_zero. apply Qle_refl. }
  unfold total_losses_for_focus_deck.
  split; [exact Hk|]. split; [exact Hwin|]. split; [exact Happ|]. split; [lia|].
  split; [apply Hrate|apply Hrate].
Qed.

(** ** C4 *)

Lemma count_win_loss (p : row -> bool) (T : table) :
  (forall r, In r T -> p r = true -> result r = WIN \/ result r = LOSS) ->
  count (fun r => p r && is_result WIN r) T + count (fun r => p r && is_result LOSS r) T =
  count p T.
Proof.
  unfold count. induction T as [|x T IH]; intros H; simpl; [reflexivity|].
  destruct (p x) eqn:E; simpl.
  - assert (IH' := IH (fun r Hr => H r (or_intror Hr))).
    destruct (H x (or_introl eq_refl) E) as [R|R].
    + replace (is_result WIN x) with true by (unfold is_result; now rewrite R).
      replace (is_result LOSS x) with false by (unfold is_result; now rewrite R).
      simpl. lia.
    + replace (is_result WIN x) with false by (unfold is_result; now rewrite R).
      replace (is_result LOSS x) with true by (unfold is_result; now rewrite R).
      simpl. lia.
  - apply IH. intros r Hr. apply H. now right.
Qed.

Lemma agg_counts (T : table) (A B : string) :
  total_games_vs_opp_deck_agg T A None B =
    count (fun r => (my_deck r =? A) && (opponent_deck r =? B))%string T +
    count (fun r => (opponent_deck r =? A) && (my_deck r =? B))%string T /\
  total_focus_wins_vs_opp_deck_agg T A None B =
    count (fun r => (my_deck r =? A) && (opponent_deck r =? B) && is_result WIN r)%string T +
    count (fun r => (opponent_deck r =? A) && (my_deck r =? B) && is_result LOSS r)%string T.
Proof.
  unfold total_games_vs_opp_deck_agg, total_focus_wins_vs_opp_deck_agg,
    case1_agg_games_total, case2_agg_games_total,
    focus_as_my_deck_games, focus_as_opponent_deck_games.
  change (length (filter ?p ?l)) with (count p l).
  rewrite !count_filter. unfold cond_my_deck_focus, cond_opponent_deck_focus. simpl.
  split; f_equal; apply count_ext; intros r; now rewrite andb_true_r, ?andb_assoc.
Qed.

Lemma count_pos (p : row -> bool) (l : table) (r : row) :
  In r l -> p r = true -> 0 < count p l.
Proof.
  intros Hr Hp. unfold count. destruct (filter p l) eqn:E; simpl; [|lia].
  assert (In r (filter p l)) by (now apply filter_In). rewrite E in H. destruct H.
Qed.

(** The four counts of the two ALL TYPES matchups between A and B, over
    the games A vs B ([p1]) and B vs A ([p2]). *)
Lemma agg_pair_counts (T : table) (A B : string) :
  total_games_vs_opp_deck_agg T A None B = count (pair_fwd A B) T + count (pair_fwd B A) T /\
  total_games_vs_opp_deck_agg T B None A = count (pair_fwd A B) T + count (pair_fwd B A) T /\
  total_focus_wins_vs_opp_deck_agg T A None B =
    count (fun r => pair_fwd A B r && is_result WIN r) T +
    count (fun r => pair_fwd B A r && is_result LOSS r) T /\
  total_focus_wins_vs_opp_deck_agg T B None A =
    count (fun r => pair_fwd B A r && is_result WIN r) T +
    count (fun r => pair_fwd A B r && is_result LOSS r) T.
Proof.
  destruct (agg_counts T A B) as [GA WA]. destruct (agg_counts T B A) as [GB WB].
  rewrite GA, GB, WA, WB.
  split; [|split; [|split]];
    let solve := (f_equal; apply count_ext; intros r; unfold pair_fwd;
      destruct (my_deck r =? A)%string, (my_deck r =? B)%string,
               (opponent_deck r =? A)%string, (opponent_deck r =? B)%string; reflexivity) in
    first [ solve | rewrite Nat.add_comm; solve ].
Qed.

(** Every row has result WIN, LOSS, or another string, and no two of them. *)
Lemma count_split_result (p : row -> bool) (T : table) :
  count (fun r => p r && is_result WIN r) T + count (fun r => p r && is_result LOSS r) T +
  count (fun r => p r && negb (is_result WIN r) && negb (is_result LOSS r)) T = count p T.
Proof.
  unfold count. induction T as [|x T IH]; simpl; [reflexivity|].
  destruct (p x); simpl; [|exact IH].
  destruct (is_result WIN x) eqn:EW, (is_result LOSS x) eqn:EL; simpl; try lia.
  unfold is_result in EW, EL.
  apply String.eqb_eq in EW, EL. rewrite EW in EL. discriminate.
Qed.

Lemma pct_sum_lt (w1 w2 n : nat) :
  (w1 + w2 < n)%nat -> (pct w1 n + pct w2 n < 100)%Q.
Proof.
  intros H. destruct n as [|n]; [lia|].
  rewrite !pct_succ. unfold Qlt, Qplus. cbn [Qnum Qden].
  rewrite ?Pos2Z.inj_mul, ?Zpos_P_of_succ_nat. nia.
Qed.

(** C4 (as amended): for two archetypes A and B with games against each
    other (focus type "all types"), when every game between them has
    result WIN or LOSS, the ALL TYPES matchup win rate of A against B is
    100 minus that of B against A; when some game between them has another
    result, the two rates sum to strictly less than 100. *)
Theorem matchup_all_types_zero_sum (T : table) (A B : string) :
  (0 < total_games_vs_opp_deck_agg T A None B)%nat ->
  (0 < total_games_vs_opp_deck_agg T B None A)%nat ->
  ((forall r, In r T -> between A B r -> result r = WIN \/ result r = LOSS) ->
   (win_rate_vs_opp_deck_agg T A None B == 100 - win_rate_vs_opp_deck_agg T B None A)%Q) /\
  ((exists r, In r T /\ between A B r /\ result r <> WIN /\ result r <> LOSS) ->
   (win_rate_vs_opp_deck_agg T A None B + win_rate_vs_opp_deck_agg T B None A < 100)%Q).
Proof.
  intros HA HB.
  destruct (agg_pair_counts T A B) as [GA [GB [WA WB]]].
  set (p1 := pair_fwd A B) in *. set (p2 := pair_fwd B A) in *.
  unfold win_rate_vs_opp_deck_agg.
  apply Nat.ltb_lt in HA as HA'. apply Nat.ltb_lt in HB as HB'.
  cbv zeta. rewrite HA', HB'. rewrite GA in HA |- *. rewrite GB, WA, WB.
  assert (Hp1 : forall r, p1 r = true -> between A B r).
  { intros r E; unfold p1, pair_fwd in E.
    apply andb_true_iff in E as [E1 E2]; apply String.eqb_eq in E1, E2; now left. }
  assert (Hp2 : forall r, p2 r = true -> between A B r).
  { intros r E; unfold p2, pair_fwd in E.
    apply andb_true_iff in E as [E1 E2]; apply String.eqb_eq in E1, E2; now right. }
  split.
  - intros Hres.
    assert (H1 := count_win_loss p1 T (fun r Hr E => Hres r Hr (Hp1 r E))).
    assert (H2 := count_win_loss p2 T (fun r Hr E => Hres r Hr (Hp2 r E))).
    apply pct_complement; [exact HA|lia].
  - intros [r [Hr [Hb [HnW HnL]]]].
    assert (Hq : negb (is_result WIN r) && negb (is_result LOSS r) = true).
    { unfold is_result.
      destruct (result r =? WIN)%string eqn:EW; [apply String.eqb_eq in EW; contradiction|].
      destruct (result r =? LOSS)%string eqn:EL; [apply String.eqb_eq in EL; contradiction|].
      reflexivity. }
    assert (Hpos : 0 < count (fun r => p1 r && negb (is_result WIN r) && negb (is_result LOSS r)) T +
                       count (fun r => p2 r && negb (is_result WIN r) && negb (is_result LOSS r)) T).
    { destruct Hb as [[E1 E2]|[E1 E2]].
      - enough (0 < count (fun r => p1 r && negb (is_result WIN r) && negb (is_result LOSS r)) T)
          by lia.
        apply (count_pos _ _ r Hr). rewrite <- andb_assoc, Hq, andb_true_r.
        unfold p1, pair_fwd. rewrite E1, E2, !String.eqb_refl. reflexivity.
      - enough (0 < count (fun r => p2 r && negb (is_result WIN r) && negb (is_result LOSS r)) T)
          by lia.
        apply (count_pos _ _ r Hr). rewrite <- andb_assoc, Hq, andb_true_r.
        unfold p2, pair_fwd. rewrite E1, E2, !String.eqb_refl. reflexivity. }
    assert (S1 := count_split_result p1 T). assert (S2 := count_split_result p2 T).
    apply pct_sum_lt. lia.
Qed.

(** C4: the claim fails for a game whose result cell is neither WIN nor
    LOSS, e.g. an empty cell, read by [load_data] as the string "nan". *)
Lemma matchup_zero_sum_counterexample :
  let T := [mk_game "X" "Y" FIRST "nan"] in
  (0 < total_games_vs_opp_deck_agg T "X" None "Y")%nat /\
  (0 < total_games_vs_opp_deck_agg T "Y" None "X")%nat /\
  ~ (win_rate_vs_opp_deck_agg T "X" None "Y" == 100 - win_rate_vs_opp_deck_agg T "Y" None "X")%Q.
Proof.
  cbv zeta. split; [vm_compute; lia|]. split; [vm_compute; lia|].
  vm_compute. discriminate.
Qed.

Lemma matchup_all_types_zero_sum_witness :
  let T := [mk_game "X" "Y" FIRST WIN; mk_game "Y" "X" SECOND "nan"] in
  (0 < total_games_vs_opp_deck_agg T "X" None "Y")%nat /\
  (0 < total_games_vs_opp_deck_agg T "Y" None "X")%nat /\
  (exists r, In r T /\ between "X" "Y" r /\ result r <> WIN /\ result r <> LOSS) /\
  (win_rate_vs_opp_deck_agg T "X" None "Y" + win_rate_vs_opp_deck_agg T "Y" None "X" < 100)%Q.
Proof.
  cbv zeta.
  assert (HA : (0 < total_games_vs_opp_deck_agg
                  [mk_game "X" "Y" FIRST WIN; mk_game "Y" "X" SECOND "nan"] "X" None "Y")%nat)
    by (vm_compute; lia).
  assert (HB : (0 < total_games_vs_opp_deck_agg
                  [mk_game "X" "Y" FIRST WIN; mk_game "Y" "X" SECOND "nan"] "Y" None "X")%nat)
    by (vm_compute; lia).
  assert (HE : exists r, In r [mk_game "X" "Y" FIRST WIN; mk_game "Y" "X" SECOND "nan"] /\
                 between "X" "Y" r /\ result r <> WIN /\ result r <> LOSS).
  { exists (mk_game "Y" "X" SECOND "nan"). split; [right; now left|].
    split; [right; split; reflexivity|]. split; discriminate. }
  split; [exact HA|]. split; [exact HB|]. split; [exact HE|].
  exact (proj2 (matchup_all_types_zero_sum _ "X" "Y" HA HB) HE).
Defined.

(** C10: the claim that such a row lowers the win rates fails when the
    archetype has no win: in a table holding only that row, both
    archetypes keep the rate 0.0 they have on the empty table. *)
Lemma non_result_row_counterexample :
  let r := mk_game "X" "Y" FIRST "nan" in
  win_rate_for_focus_deck [r] "X" None = win_rate_for_focus_deck [] "X" None /\
  win_rate_for_focus_deck [r] "Y" None = win_rate_for_focus_deck [] "Y" None.
Proof. split; reflexivity. Qed.

Lemma non_result_row_counts_as_loss_witness :
  let T := [mk_game "X" "Y" FIRST WIN] in
  let r := mk_game "X" "X" FIRST "nan" in
  (result r =? WIN)%string = false /\ (result r =? LOSS)%string = false /\
  (cond_my_deck_focus "X" None r || cond_opponent_deck_focus "X" None r)%bool = true /\
  (let k := (if cond_my_deck_focus "X" None r then 1 else 0) +
            (if cond_opponent_deck_focus "X" None r then 1 else 0) in
   1 <= k /\
   total_wins_for_focus_deck (T ++ [r]) "X" None = total_wins_for_focus_deck T "X" None /\
   total_appearances (T ++ [r]) "X" None = total_appearances T "X" None + k /\
   total_losses_for_focus_deck (T ++ [r]) "X" None =
     total_losses_for_focus_deck T "X" None + k /\
   (win_rate_for_focus_deck (T ++ [r]) "X" None <= win_rate_for_focus_deck T "X" None)%Q /\
   (0 < total_wins_for_focus_deck T "X" None ->
    (win_rate_for_focus_deck (T ++ [r]) "X" None < win_rate_for_focus_deck T "X" None)%Q)).
Proof.
  cbv zeta. split; [reflexivity|]. split; [reflexivity|]. split; [reflexivity|].
  exact (non_result_row_counts_as_loss [mk_game "X" "Y" FIRST WIN] "X" None
           (mk_game "X" "X" FIRST "nan") eq_refl eq_refl eq_refl).
Defined.

(** [str.strip()] on Unicode whitespace: U+3000 and U+00A0 are stripped at
    both ends, inner whitespace is kept, and an opponent or a memo of
    U+3000 alone is dropped as blank (lines 306 and 546-548). *)
Example py_strip_unicode :
  py_strip "　a b　" = "a b" /\ py_strip "  a " = "a" /\ py_strip "　 " = "" /\
  valid_general_opponent "X" "　" = false /\
  memo_filter (mkRow "S1" None "E" "X" "t" "Y" "t" FIRST WIN None "　") = false /\
  memo_filter (mkRow "S1" None "E" "X" "t" "Y" "t" FIRST WIN None " ok ") = true.
Proof. vm_compute. repeat split. Qed.

(** ** C3 *)

Lemma set_add_In (x y : string) (s : list string) :
  In x (set_add y s) <-> x = y \/ In x s.
Proof.
  unfold set_add. destruct (existsb (String.eqb y) s) eqn:E.
  - apply existsb_exists in E as [z [Hz Ez]]. apply String.eqb_eq in Ez. subst z.
    split; [now right|]. intros [->|H]; assumption.
  - rewrite in_app_iff. simpl. split; intros [H|H]; intuition.
Qed.

Lemma set_add_NoDup (y : string) (s : list string) : NoDup s -> NoDup (set_add y s).
Proof.
  intros Hs. unfold set_add. destruct (existsb (String.eqb y) s) eqn:E; [exact Hs|].
  apply NoDup_app; [exact Hs|constructor; [intros []|constructor]|].
  intros x Hx [Ex|[]]. subst x. assert (existsb (String.eqb y) s = true) as E'.
  { apply existsb_exists. exists y. split; [exact Hx|apply String.eqb_refl]. }
  congruence.
Qed.

Lemma fold_add_opponent (A : string) (l : table) (acc : list string) :
  NoDup acc ->
  NoDup (fold_left (add_opponent A) l acc) /\
  (forall x, In x (fold_left (add_opponent A) l acc) <->
             In x acc \/ exists r, In r l /\ opponent_for_this_game A r = Some x /\
                                   valid_general_opponent A x = true).
Proof.
  revert acc. induction l as [|r l IH]; intros acc Hacc; simpl.
  - split; [exact Hacc|]. intros x. split; [now left|]. intros [H|[r [[] _]]]. exact H.
  - assert (Hacc' : NoDup (add_opponent A acc r)).
    { unfold add_opponent. destruct (opponent_for_this_game A r); [|exact Hacc].
      destruct (valid_general_opponent A s); [now apply set_add_NoDup|exact Hacc]. }
    destruct (IH _ Hacc') as [Hn Hi]. split; [exact Hn|]. intros x. rewrite Hi.
    unfold add_opponent. split.
    + intros [H|[r' [Hr' H']]]; [|right; exists r'; tauto].
      destruct (opponent_for_this_game A r) as [o|] eqn:Eo; [|now left].
      destruct (valid_general_opponent A o) eqn:Ev; [|now left].
      apply set_add_In in H as [->|H]; [|now left]. right. exists r. tauto.
    + intros [H|[r' [[<-|Hr'] [Eo Ev]]]].
      * left. destruct (opponent_for_this_game A r); [|exact H].
        destruct (valid_general_opponent A s); [apply set_add_In; now right|exact H].
      * left. rewrite Eo, Ev. apply set_add_In. now left.
      * right. exists r'. tauto.
Qed.

Lemma opponent_for_between (T : table) (A B : string) :
  valid_general_opponent A B = true ->
  ((exists r, In r (games_involving_deck_a T A) /\ opponent_for_this_game A r = Some B) <->
   (exists r, In r T /\ between A B r)).
Proof.
  intros Hv.
  assert (HBA : B <> A).
  { intros ->. unfold valid_general_opponent in Hv. rewrite String.eqb_refl in Hv.
    rewrite andb_false_r in Hv. simpl in Hv. discriminate. }
  unfold games_involving_deck_a, opponent_for_this_game, between. split.
  - intros [r [Hr Eo]]. apply filter_In in Hr as [Hr _]. exists r. split; [exact Hr|].
    destruct (my_deck r =? A)%string eqn:E1.
    + apply String.eqb_eq in E1. injection Eo as Eo. now left.
    + destruct (opponent_deck r =? A)%string eqn:E2; [|discriminate].
      apply String.eqb_eq in E2. injection Eo as Eo. now right.
  - intros [r [Hr Hb]]. exists r. split.
    + apply filter_In. split; [exact Hr|].
      destruct Hb as [[-> _]|[_ ->]]; rewrite String.eqb_refl; [reflexivity|apply orb_true_r].
    + destruct Hb as [[E1 E2]|[E1 E2]].
      * rewrite E1, String.eqb_refl. now rewrite E2.
      * rewrite E1, E2. apply String.eqb_neq in HBA. rewrite HBA, String.eqb_refl. reflexivity.
Qed.

Lemma unique_opponents_spec (T : table) (A : string) :
  NoDup (unique_opponents_faced_by_deck_a T A) /\
  (forall B, In B (unique_opponents_faced_by_deck_a T A) <-> faced_opponent T A B).
Proof.
  destruct (fold_add_opponent A (games_involving_deck_a T A) [] (NoDup_nil _)) as [Hn Hi].
  split; [exact Hn|]. intros B. unfold unique_opponents_faced_by_deck_a. rewrite Hi.
  unfold faced_opponent. split.
  - intros [[]|[r [Hr [Eo Ev]]]]. split; [exact Ev|].
    apply (opponent_for_between T A B Ev). now exists r.
  - intros [Ev Hex]. right. apply (opponent_for_between T A B Ev) in Hex as [r [Hr Eo]].
    now exists r.
Qed.

Lemma general_pair_counts (T : table) (A o : string) :
  total_games_vs_specific_opponent T A o = total_games_vs_opp_deck_agg T A None o /\
  total_wins_for_a_vs_specific_opponent T A o = total_focus_wins_vs_opp_deck_agg T A None o.
Proof.
  destruct (agg_counts T A o) as [G W]. rewrite G, W.
  unfold total_games_vs_specific_opponent, total_wins_for_a_vs_specific_opponent,
    a_vs_opp_my_games, a_vs_opp_opponent_games, games_involving_deck_a.
  change (length (filter ?p ?l)) with (count p l). rewrite !count_filter.
  split; f_equal; apply count_ext; intros r;
    destruct (my_deck r =? A)%string, (opponent_deck r =? A)%string,
      (my_deck r =? o)%string, (opponent_deck r =? o)%string; reflexivity.
Qed.

Lemma faced_games_pos (T : table) (A o : string) :
  faced_opponent T A o -> 0 < total_games_vs_opp_deck_agg T A None o.
Proof.
  intros [_ [r [Hr Hb]]]. destruct (agg_counts T A o) as [G _]. rewrite G.
  destruct Hb as [[E1 E2]|[E1 E2]].
  - assert (0 < count (fun r => (my_deck r =? A) && (opponent_deck r =? o))%string T); [|lia].
    apply (count_pos _ _ r Hr). now rewrite E1, E2, !String.eqb_refl.
  - assert (0 < count (fun r => (opponent_deck r =? A) && (my_deck r =? o))%string T); [|lia].
    apply (count_pos _ _ r Hr). now rewrite E1, E2, !String.eqb_refl.
Qed.

Lemma fold_rates (g : string -> nat) (f : string -> Q) (l : list string) (acc : list Q) :
  (forall o, In o l -> 0 < g o) ->
  fold_left (fun acc o => if (0 <? g o)%nat then acc ++ [f o] else acc) l acc = acc ++ map f l.
Proof.
  revert acc. induction l as [|o l IH]; intros acc H; simpl; [now rewrite app_nil_r|].
  assert (Ho : (0 <? g o)%nat = true) by (apply Nat.ltb_lt, H; now left).
  rewrite Ho, IH by (intros o' Ho'; apply H; now right).
  now rewrite <- app_assoc.
Qed.

Lemma sum_perm (l1 l2 : list Q) :
  Permutation l1 l2 -> (fold_right Qplus 0 l1 == fold_right Qplus 0 l2)%Q.
Proof.
  induction 1 as [|x l1 l2 _ IH|x y l|l1 l2 l3 _ IH1 _ IH2]; simpl.
  - reflexivity.
  - now rewrite IH.
  - ring.
  - now rewrite IH1.
Qed.

Lemma mean_perm (l1 l2 : list Q) : Permutation l1 l2 -> (mean l1 == mean l2)%Q.
Proof.
  intros H. unfold mean. rewrite (sum_perm _ _ H), (Permutation_length H). reflexivity.
Qed.

(** C3: the average matchup win rate of archetype A in the general view
    is absent when A has no valid opponent, and otherwise is the unweighted
    mean, over A's distinct opponents (listed in any order), of the ALL TYPES
    win rate of A against each of them, as the focus view computes it. *)
Theorem average_matchup_is_mean_of_all_types_rates (T : table) (A : string) (L : list string) :
  NoDup L -> (forall B, In B L <-> faced_opponent T A B) ->
  (L = [] -> avg_matchup_wr_deck_a T A = None) /\
  (L <> [] -> exists v, avg_matchup_wr_deck_a T A = Some v /\
     (v == mean (map (fun B => win_rate_vs_opp_deck_agg T A None B) L))%Q).
Proof.
  intros HL HinL.
  destruct (unique_opponents_spec T A) as [HU HinU].
  set (U := unique_opponents_faced_by_deck_a T A) in *.
  assert (Hsame : forall B, In B U <-> In B L) by (intros B; now rewrite HinU, HinL).
  assert (Hpos : forall o, In o U -> 0 < total_games_vs_specific_opponent T A o).
  { intros o Ho. rewrite (proj1 (general_pair_counts T A o)).
    apply faced_games_pos, HinU, Ho. }
  assert (Hrates : matchup_win_rates_for_deck_a T A =
                   map (fun B => win_rate_vs_opp_deck_agg T A None B) U).
  { unfold matchup_win_rates_for_deck_a. fold U. rewrite fold_rates by exact Hpos.
    simpl. apply map_ext_in. intros o Ho.
    destruct (general_pair_counts T A o) as [G W].
    unfold win_rate_vs_opp_deck_agg. rewrite <- G, <- W.
    assert (Hp := proj2 (Nat.ltb_lt _ _) (Hpos o Ho)). cbv zeta. now rewrite Hp. }
  unfold avg_matchup_wr_deck_a. rewrite Hrates. split.
  - intros ->. destruct U as [|o U']; [reflexivity|].
    exfalso. apply (Hsame o). now left.
  - intros Hne. assert (HP : Permutation U L) by (apply NoDup_Permutation; auto).
    clearbody U. destruct U as [|o U'].
    + exfalso. apply Hne. now apply Permutation_nil.
    + eexists. split; [reflexivity|]. apply mean_perm.
      exact (Permutation_map (fun B => win_rate_vs_opp_deck_agg T A None B) HP).
Qed.

Lemma average_matchup_is_mean_of_all_types_rates_witness :
  let T := [mk_game "X" "Y" FIRST WIN; mk_game "Z" "X" FIRST WIN] in
  NoDup ["Y"; "Z"] /\ (forall B, In B ["Y"; "Z"] <-> faced_opponent T "X" B) /\
  (["Y"; "Z"] = [] -> avg_matchup_wr_deck_a T "X" = None) /\
  (["Y"; "Z"] <> [] -> exists v, avg_matchup_wr_deck_a T "X" = Some v /\
     (v == mean (map (fun B => win_rate_vs_opp_deck_agg T "X" None B) ["Y"; "Z"]))%Q).
Proof.
  cbv zeta.
  assert (HN : NoDup ["Y"; "Z"]).
  { constructor; [intros [H|[]]; discriminate|]. constructor; [intros []|constructor]. }
  assert (HM : forall B, In B ["Y"; "Z"] <->
      faced_opponent [mk_game "X" "Y" FIRST WIN; mk_game "Z" "X" FIRST WIN] "X" B).
  { intros B. split.
    - intros [<-|[<-|[]]]; (split; [reflexivity|]).
      + exists (mk_game "X" "Y" FIRST WIN). split; [now left|]. now left.
      + exists (mk_game "Z" "X" FIRST WIN). split; [right; now left|]. now right.
    - intros [Hv [r [[<-|[<-|[]]] [[E1 E2]|[E1 E2]]]]]; simpl in E1, E2; subst;
        try discriminate; simpl; auto. }
  split; [exact HN|]. split; [exact HM|].
  exact (average_matchup_is_mean_of_all_types_rates _ "X" ["Y"; "Z"] HN HM).
Defined.

(** The average matchup win rate is not the volume-weighted rate: two
    wins against Y and one loss against Z give 50% against 66.7%. *)
Example avg_matchup_not_volume_weighted :
  let T := [mk_game "X" "Y" FIRST WIN; mk_game "X" "Y" SECOND WIN; mk_game "Z" "X" FIRST WIN] in
  (exists v, avg_matchup_wr_deck_a T "X" = Some v /\ v == 50)%Q /\
  (simple_overall_win_rate_deck_a T "X" == 200 # 3)%Q.
Proof. split; [eexists; split; vm_compute; reflexivity|vm_compute; reflexivity]. Qed.

(** ** C8 *)

Lemma ascii_compare_trans (c : comparison) (a1 a2 a3 : ascii) :
  Ascii.compare a1 a2 = c -> Ascii.compare a2 a3 = c -> Ascii.compare a1 a3 = c.
Proof.
  unfold Ascii.compare. intros H1 H2. destruct c.
  - apply N.compare_eq_iff in H1, H2. apply N.compare_eq_iff. congruence.
  - rewrite N.compare_lt_iff in *. lia.
  - rewrite N.compare_gt_iff in *. lia.
Qed.

Lemma string_compare_refl (s : string) : String.compare s s = Eq.
Proof.
  induction s as [|a s IH]; simpl; [reflexivity|].
  unfold Ascii.compare. now rewrite N.compare_refl.
Qed.

Lemma string_compare_trans (c : comparison) (s1 s2 s3 : string) :
  String.compare s1 s2 = c -> String.compare s2 s3 = c -> String.compare s1 s3 = c.
Proof.
  revert s2 s3. induction s1 as [|a1 s1 IH]; intros s2 s3 H1 H2.
  - destruct s2, s3; simpl in *; congruence.
  - destruct s2 as [|a2 s2]; [simpl in H1; subst c; destruct s3; simpl in *; congruence|].
    destruct s3 as [|a3 s3]; [simpl in *; congruence|].
    simpl in *. destruct (Ascii.compare a1 a2) eqn:E1.
    + apply Ascii.compare_eq_iff in E1. subst a2.
      destruct (Ascii.compare a1 a3); [exact (IH s2 s3 H1 H2)|exact H2|exact H2].
    + subst c. destruct (Ascii.compare a2 a3) eqn:E2; try discriminate.
      * apply Ascii.compare_eq_iff in E2. subst a3. now rewrite E1.
      * now rewrite (ascii_compare_trans _ _ _ _ E1 E2).
    + subst c. destruct (Ascii.compare a2 a3) eqn:E2; try discriminate.
      * apply Ascii.compare_eq_iff in E2. subst a3. now rewrite E1.
      * now rewrite (ascii_compare_trans _ _ _ _ E1 E2).
Qed.

Lemma string_leb_trans (s1 s2 s3 : string) :
  String.leb s1 s2 = true -> String.leb s2 s3 = true -> String.leb s1 s3 = true.
Proof.
  unfold String.leb. intros H1 H2.
  destruct (String.compare s1 s2) eqn:E1; try discriminate H1.
  - apply String.compare_eq_iff in E1. subst s2. exact H2.
  - destruct (String.compare s2 s3) eqn:E2; try discriminate H2.
    + apply String.compare_eq_iff in E2. subst s3. now rewrite E1.
    + now rewrite (string_compare_trans _ _ _ _ E1 E2).
Qed.

Lemma lex_le_trans (p q r : string * string) :
  lex_le p q = true -> lex_le q r = true -> lex_le p r = true.
Proof.
  destruct p as [p1 p2], q as [q1 q2], r as [r1 r2]; unfold lex_le; simpl.
  intros H1 H2.
  destruct (String.compare p1 q1) eqn:E1; try discriminate H1.
  - apply String.compare_eq_iff in E1. subst q1.
    destruct (String.compare p1 r1); try exact H2.
    exact (string_leb_trans _ _ _ H1 H2).
  - destruct (String.compare q1 r1) eqn:E2; try discriminate H2.
    + apply String.compare_eq_iff in E2. subst r1. now rewrite E1.
    + now rewrite (string_compare_trans _ _ _ _ E1 E2).
Qed.

Lemma lex_le_total (p q : string * string) : lex_le p q = true \/ lex_le q p = true.
Proof.
  destruct p as [p1 p2], q as [q1 q2]; unfold lex_le; simpl.
  rewrite (String.compare_antisym q1 p1).
  destruct (String.compare p1 q1) eqn:E; simpl; auto.
  apply String.compare_eq_iff in E. subst q1. apply String.leb_total.
Qed.

(** ** Insertion sort sorts any total preorder *)

Section InsertionSort.
  Context {A : Type} (le : A -> A -> bool).
  Hypothesis le_total : forall x y, le x y = true \/ le y x = true.
  Hypothesis le_trans : forall x y z, le x y = true -> le y z = true -> le x z = true.

Lemma insert_by_perm (x : A) (l : list A) : Permutation (insert_by le x l) (x :: l).
Proof.
  induction l as [|y l IH]; simpl; [reflexivity|].
  destruct (le x y); [reflexivity|].
  eapply perm_trans; [apply perm_skip, IH|apply perm_swap].
Qed.

Lemma sort_by_perm (l : list A) : Permutation (sort_by le l) l.
Proof.
  induction l as [|x l IH]; unfold sort_by in *; simpl; [reflexivity|].
  eapply perm_trans; [apply insert_by_perm|]. apply perm_skip, IH.
Qed.

Lemma insert_by_sorted (x : A) (l : list A) :
  Sorted (fun a b => le a b = true) l -> Sorted (fun a b => le a b = true) (insert_by le x l).
Proof.
  induction 1 as [|y l Hs IH Hhd]; simpl; [constructor; constructor|].
  destruct (le x y) eqn:E.
  - constructor; [constructor; assumption|constructor; exact E].
  - assert (Hyx : le y x = true) by (destruct (le_total x y); congruence).
    constructor; [exact IH|].
    destruct l as [|z l']; simpl; [constructor; exact Hyx|].
    inversion Hhd; subst. destruct (le x z); constructor; assumption.
Qed.

Lemma sort_by_sorted (l : list A) : Sorted (fun a b => le a b = true) (sort_by le l).
Proof.
  induction l as [|x l IH]; unfold sort_by in *; simpl; [constructor|].
  apply insert_by_sorted, IH.
Qed.

Lemma sort_by_strongly_sorted (l : list A) :
  StronglySorted (fun a b => le a b = true) (sort_by le l).
Proof.
  eapply Sorted_StronglySorted; [exact le_trans|apply sort_by_sorted].
Qed.

End InsertionSort.

Lemma StronglySorted_weaken {A : Type} (R1 R2 : A -> A -> Prop) (l : list A) :
  (forall x y, R1 x y -> R2 x y) -> StronglySorted R1 l -> StronglySorted R2 l.
Proof.
  intros H. induction 1; constructor; [assumption|].
  eapply Forall_impl; [|eassumption]. auto.
Qed.

Lemma matchup_key_le_order (m1 m2 : matchup_row) :
  matchup_key_le m1 m2 = true -> matchup_order m1 m2.
Proof.
  unfold matchup_key_le, lex_le, matchup_order; simpl.
  destruct (String.compare (opp_deck_name m1) (opp_deck_name m2)) eqn:E; intros H.
  - apply String.compare_eq_iff in E. right. split; [exact E|].
    unfold sort_type in H.
    destruct (opp_deck_type m1 =? ALL_TYPES_PLACEHOLDER)%string eqn:E1.
    + left. apply String.eqb_eq, E1.
    + right. destruct (opp_deck_type m2 =? ALL_TYPES_PLACEHOLDER)%string eqn:E2.
      * simpl in H. discriminate H.
      * split; [apply String.eqb_neq, E2|].
        unfold String.leb in *. simpl in H. exact H.
  - left. unfold String.ltb. rewrite E. reflexivity.
  - discriminate H.
Qed.

(** C8: the combined matchup table of the focus view holds exactly the
    type-specific rows and the ALL TYPES rows, ordered by opponent name and,
    within a name, with the ALL TYPES row first and the other types in
    lexicographic order. *)
Theorem matchup_table_sorted (T : table) (A : string) (ty : option string) :
  Permutation (matchup_df_final T A ty) (matchup_data T A ty ++ agg_matchup_data T A ty) /\
  StronglySorted matchup_order (matchup_df_final T A ty).
Proof.
  unfold matchup_df_final.
  destruct (matchup_data T A ty) as [|m ms] eqn:E.
  - unfold agg_matchup_data. rewrite E. simpl. split; constructor.
  - rewrite <- E. split.
    + apply sort_by_perm.
    + eapply StronglySorted_weaken; [apply matchup_key_le_order|].
      apply sort_by_strongly_sorted.
      * intros x y. unfold matchup_key_le. apply lex_le_total.
      * intros x y z. unfold matchup_key_le. apply lex_le_trans.
Qed.

(** C5: the focus view's enumeration of (opponent, type) pairs takes them
    from both perspectives and drops absent names, but keeps self-pairs: on
    one mirror game of A the pair (A, t) is listed, the type-specific and
    ALL TYPES rows for A each count that single game twice, while the
    general view's opponent list for A stays empty. *)
Theorem focus_matchup_keeps_self_pairs :
  let T := [mk_game "A" "A" FIRST WIN] in
  all_faced_opponents_tuples T "A" None = [("A", "t")%string] /\
  map (fun m => (opp_deck_name m, opp_deck_type m, games_played_count m))
      (matchup_df_final T "A" None) =
    [("A", ALL_TYPES_PLACEHOLDER, 2); ("A", "t", 2)]%string /\
  unique_opponents_faced_by_deck_a T "A" = [].
Proof.
  vm_compute. repeat split.
Qed.

Lemma q_integral_inject (z : Z) : q_is_integral (inject_Z z) = true.
Proof.
  unfold q_is_integral, inject_Z. simpl. rewrite Z.mod_1_r. reflexivity.
Qed.

Lemma q_to_Z_inject (z : Z) : q_to_Z (inject_Z z) = z.
Proof.
  unfold q_to_Z, inject_Z. simpl. apply Z.div_1_r.
Qed.

Lemma forallb_cell_integral (col : list cell) :
  forallb (fun o => match o with Some q => q_is_integral q | None => true end)
          (map to_numeric_coerce col) = forallb cell_integral col.
Proof.
  induction col as [|c col IH]; simpl; [reflexivity|].
  rewrite IH. destruct c; reflexivity.
Qed.




(** * Further properties of the program *)

(** ** Sets, sorted string lists and the option builders *)

Lemma truthy_spec (s : string) : truthy s = true <-> s <> "".
Proof.
  unfold truthy. rewrite negb_true_iff, String.eqb_neq. reflexivity.
Qed.

Lemma valid_name_spec (d : string) :
  valid_name d = true <-> d <> "" /\ py_lower d <> "nan".
Proof.
  unfold valid_name. rewrite andb_true_iff, truthy_spec, negb_true_iff, String.eqb_neq.
  reflexivity.
Qed.

Lemma NEW_ENTRY_LABEL_nonempty : NEW_ENTRY_LABEL <> "".
Proof. discriminate. Qed.

Lemma fold_set_add (l acc : list string) :
  NoDup acc ->
  NoDup (fold_left (fun acc x => set_add x acc) l acc) /\
  (forall x, In x (fold_left (fun acc x => set_add x acc) l acc) <-> In x acc \/ In x l).
Proof.
  revert acc. induction l as [|y l IH]; intros acc Hacc; simpl.
  - split; [exact Hacc|]. intros x. tauto.
  - destruct (IH (set_add y acc) (set_add_NoDup y acc Hacc)) as [Hn Hi].
    split; [exact Hn|]. intros x. rewrite Hi, set_add_In.
    split; intros H; repeat destruct H as [H|H]; subst; simpl; auto.
Qed.

Lemma to_set_spec (l : list string) :
  NoDup (to_set l) /\ (forall x, In x (to_set l) <-> In x l).
Proof.
  unfold to_set. destruct (fold_set_add l [] (NoDup_nil _)) as [Hn Hi].
  split; [exact Hn|]. intros x. rewrite Hi. simpl. tauto.
Qed.

Lemma dropna_map_In (f : row -> string) (T : table) (x : string) :
  In x (dropna_empty (map f T)) <-> x <> "" /\ exists r, In r T /\ f r = x.
Proof.
  unfold dropna_empty. rewrite filter_In, truthy_spec, in_map_iff.
  split.
  - intros [[r [H1 H2]] H3]. eauto.
  - intros [H1 [r [H2 H3]]]. eauto.
Qed.

Lemma strongly_sorted_perm_eq {A : Type} (R : A -> A -> Prop)
    (antisym : forall x y, R x y -> R y x -> x = y) (l1 l2 : list A) :
  StronglySorted R l1 -> StronglySorted R l2 -> Permutation l1 l2 -> l1 = l2.
Proof.
  revert l2. induction l1 as [|a l1 IH]; intros l2 H1 H2 P.
  - symmetry. apply Permutation_nil, P.
  - destruct l2 as [|b l2].
    + apply Permutation_sym, Permutation_nil in P. discriminate.
    + apply StronglySorted_inv in H1 as [H1 F1]. apply StronglySorted_inv in H2 as [H2 F2].
      assert (a = b) as <-.
      { assert (Ha : In a (b :: l2)) by (eapply Permutation_in; [exact P|left; reflexivity]).
        assert (Hb : In b (a :: l1))
          by (eapply Permutation_in; [apply Permutation_sym, P|left; reflexivity]).
        rewrite Forall_forall in F1, F2.
        destruct Ha as [Ha|Ha]; [congruence|]. destruct Hb as [Hb|Hb]; [congruence|].
        apply antisym; [apply F1, Hb|apply F2, Ha]. }
      f_equal. apply IH; auto. eapply Permutation_cons_inv; eauto.
Qed.

Lemma sort_strings_perm (l : list string) : Permutation (sort_strings l) l.
Proof. apply sort_by_perm. Qed.

Lemma sort_strings_sorted (l : list string) :
  StronglySorted (fun a b => String.leb a b = true) (sort_strings l).
Proof.
  apply sort_by_strongly_sorted; [apply String.leb_total|apply string_leb_trans].
Qed.

Lemma sort_strings_In (l : list string) (x : string) : In x (sort_strings l) <-> In x l.
Proof.
  split; apply Permutation_in; [|apply Permutation_sym]; apply sort_strings_perm.
Qed.

Lemma sort_strings_NoDup (l : list string) : NoDup l -> NoDup (sort_strings l).
Proof.
  intros H. eapply Permutation_NoDup; [apply Permutation_sym, sort_strings_perm|exact H].
Qed.

Lemma sort_strings_ext (l1 l2 : list string) :
  NoDup l1 -> NoDup l2 -> (forall x, In x l1 <-> In x l2) -> sort_strings l1 = sort_strings l2.
Proof.
  intros N1 N2 H. apply (strongly_sorted_perm_eq _ String.leb_antisym);
    [apply sort_strings_sorted|apply sort_strings_sorted|].
  eapply perm_trans; [apply sort_strings_perm|].
  eapply perm_trans; [apply NoDup_Permutation; eauto|apply Permutation_sym, sort_strings_perm].
Qed.

Lemma sort_strings_nil (l : list string) : sort_strings l = [] <-> l = [].
Proof.
  split; intros H.
  - apply Permutation_nil. rewrite <- H. apply sort_strings_perm.
  - subst l. reflexivity.
Qed.

(** The selectors' shape: the label first, then the sorted names, or the
    label alone when there are none. *)
Lemma label_then_sorted (lab : string) (l : list string) :
  match l with [] => [lab] | _ => lab :: sort_strings l end =
  match sort_strings l with [] => [lab] | l' => lab :: l' end.
Proof.
  destruct l as [|x l]; [reflexivity|].
  destruct (sort_strings (x :: l)) eqn:E; [|reflexivity].
  apply (proj1 (sort_strings_nil _)) in E. discriminate E.
Qed.

Lemma sorted_filter_spec (p : string -> bool) (l : list string) :
  NoDup l ->
  NoDup (sort_strings (filter p l)) /\
  StronglySorted (fun a b => String.leb a b = true) (sort_strings (filter p l)) /\
  (forall x, In x (sort_strings (filter p l)) <-> p x = true /\ In x l).
Proof.
  intros H. split; [|split].
  - apply sort_strings_NoDup, NoDup_filter, H.
  - apply sort_strings_sorted.
  - intros x. rewrite sort_strings_In, filter_In. tauto.
Qed.

Lemma all_decks_set_spec (T : table) :
  let all := fold_left (fun acc x => set_add x acc) (to_set (dropna_empty (map opponent_deck T)))
                       (to_set (dropna_empty (map my_deck T))) in
  NoDup all /\
  (forall x, In x all <-> x <> "" /\ exists r, In r T /\ (my_deck r = x \/ opponent_deck r = x)).
Proof.
  intros all. destruct (to_set_spec (dropna_empty (map my_deck T))) as [Nm Im].
  destruct (to_set_spec (dropna_empty (map opponent_deck T))) as [No Io].
  destruct (fold_set_add (to_set (dropna_empty (map opponent_deck T))) _ Nm) as [Na Ia].
  split; [exact Na|]. intros x. unfold all. rewrite Ia, Im, Io, !dropna_map_In.
  split.
  - intros [[H [r [Hr E]]]|[H [r [Hr E]]]]; eauto.
  - intros [H [r [Hr [E|E]]]]; [left|right]; eauto.
Qed.

Lemma analyzable_names_In (T : table) (d : string) :
  In d (get_all_analyzable_deck_names T) <->
  (d <> "" /\ py_lower d <> "nan") /\ exists r, In r T /\ (my_deck r = d \/ opponent_deck r = d).
Proof.
  destruct (all_decks_set_spec T) as [N I].
  unfold get_all_analyzable_deck_names. rewrite sort_strings_In, filter_In, I, valid_name_spec.
  tauto.
Qed.

(** X1: [get_all_analyzable_deck_names] lists, once each and in sorted
    order, exactly the names met as my_deck or opponent_deck that are
    non-empty and not "nan" in any letter case. *)
Theorem analyzable_deck_names_spec (T : table) :
  NoDup (get_all_analyzable_deck_names T) /\
  StronglySorted (fun a b => String.leb a b = true) (get_all_analyzable_deck_names T) /\
  (forall d, In d (get_all_analyzable_deck_names T) <->
     (d <> "" /\ py_lower d <> "nan") /\
     exists r, In r T /\ (my_deck r = d \/ opponent_deck r = d)).
Proof.
  destruct (all_decks_set_spec T) as [N I].
  unfold get_all_analyzable_deck_names.
  destruct (sorted_filter_spec valid_name _ N) as [N' [S' I']].
  split; [exact N'|split; [exact S'|]].
  intros d. apply analyzable_names_In.
Qed.

Lemma archetype_types_set_spec (T : table) (d : string) :
  let types := to_set (dropna_empty (map my_deck_type (filter (fun r => (my_deck r =? d)%string) T)) ++
                       dropna_empty (map opponent_deck_type (filter (fun r => (opponent_deck r =? d)%string) T))) in
  NoDup types /\
  (forall t, In t types <-> t <> "" /\ exists r, In r T /\
     ((my_deck r = d /\ my_deck_type r = t) \/ (opponent_deck r = d /\ opponent_deck_type r = t))).
Proof.
  intros types. destruct (to_set_spec
    (dropna_empty (map my_deck_type (filter (fun r => (my_deck r =? d)%string) T)) ++
     dropna_empty (map opponent_deck_type (filter (fun r => (opponent_deck r =? d)%string) T)))) as [N I].
  split; [exact N|]. intros t. unfold types. rewrite I, in_app_iff, !dropna_map_In.
  split.
  - intros [[H [r [Hr E]]]|[H [r [Hr E]]]]; apply filter_In in Hr as [Hr Er];
      apply String.eqb_eq in Er; split; eauto 6.
  - intros [H [r [Hr [[E1 E2]|[E1 E2]]]]]; [left|right]; split; auto; exists r;
      (split; [apply filter_In; split; [exact Hr|apply String.eqb_eq, E1]|exact E2]).
Qed.

(** X2: for a deck name that is neither empty nor the placeholder,
    [get_all_types_for_archetype] puts the ALL TYPES label first, then,
    once each and sorted, exactly the non-empty, non-"nan" types the deck
    was recorded with on either side. *)
Theorem archetype_types_spec (T : table) (d : string)
    (Hd : d <> "") (Hsel : d <> SELECT_PLACEHOLDER) :
  exists l, get_all_types_for_archetype T d = ALL_TYPES_PLACEHOLDER :: l /\
    NoDup l /\ StronglySorted (fun a b => String.leb a b = true) l /\
    (forall t, In t l <-> (t <> "" /\ py_lower t <> "nan") /\ exists r, In r T /\
       ((my_deck r = d /\ my_deck_type r = t) \/ (opponent_deck r = d /\ opponent_deck_type r = t))).
Proof.
  destruct (archetype_types_set_spec T d) as [N I].
  unfold get_all_types_for_archetype.
  replace (negb (truthy d) || (d =? SELECT_PLACEHOLDER)%string) with false.
  2:{ symmetry. apply orb_false_iff. split.
      - apply negb_false_iff, truthy_spec, Hd.
      - apply String.eqb_neq, Hsel. }
  eexists. split; [reflexivity|].
  destruct (sorted_filter_spec valid_name _ N) as [N' [S' I']].
  split; [exact N'|split; [exact S'|]].
  intros t. rewrite I', I, valid_name_spec. tauto.
Qed.

Lemma archetype_types_spec_witness :
  exists l, get_all_types_for_archetype [mk_game "X" "Y" FIRST WIN] "X" = ALL_TYPES_PLACEHOLDER :: l /\
    NoDup l /\ StronglySorted (fun a b => String.leb a b = true) l /\
    (forall t, In t l <-> (t <> "" /\ py_lower t <> "nan") /\ exists r, In r [mk_game "X" "Y" FIRST WIN] /\
       ((my_deck r = "X" /\ my_deck_type r = t) \/ (opponent_deck r = "X" /\ opponent_deck_type r = t))).
Proof.
  apply archetype_types_spec; discriminate.
Defined.

Lemma appearances_pos (T : table) (d : string) (ty : option string) (r : row) :
  In r T -> (cond_my_deck_focus d ty r = true \/ cond_opponent_deck_focus d ty r = true) ->
  0 < total_appearances T d ty.
Proof.
  intros Hr [H|H]; unfold total_appearances, focus_as_my_deck_games, focus_as_opponent_deck_games;
    [pose proof (count_pos _ _ r Hr H)|pose proof (count_pos _ _ r Hr H)]; unfold count in *; lia.
Qed.

Lemma narrowing_some (t t' : string) :
  narrowing (Some t) = Some t' -> t' = t /\ t <> ALL_TYPES_PLACEHOLDER.
Proof.
  unfold narrowing. destruct ((t =? "") || (t =? ALL_TYPES_PLACEHOLDER))%string eqn:E;
    intros H; inversion H; subst. split; [reflexivity|].
  intros ->. rewrite String.eqb_refl, orb_true_r in E. discriminate.
Qed.

(** X3: every deck the focus selector offers, combined with every type the
    type selector then offers for it, selects at least one game: the "no
    records" early return of the focus analysis is never reached through
    the selectors. *)
Theorem focus_selector_options_have_games (T : table) (d t : string) :
  In d (get_all_analyzable_deck_names T) ->
  In t (get_all_types_for_archetype T d) ->
  0 < total_appearances T d (Some t).
Proof.
  intros Hd Ht. apply analyzable_names_In in Hd as [[Hne _] [r0 [Hr0 E0]]].
  destruct (narrowing (Some t)) as [t'|] eqn:En.
  - pose proof (narrowing_some _ _ En) as [-> HtA].
    unfold get_all_types_for_archetype in Ht.
    destruct (negb (truthy d) || (d =? SELECT_PLACEHOLDER))%string.
    + destruct Ht as [Ht|[]]. congruence.
    + destruct Ht as [Ht|Ht]; [congruence|].
      rewrite sort_strings_In, filter_In in Ht. destruct Ht as [Ht _].
      destruct (archetype_types_set_spec T d) as [_ I].
      apply I in Ht as [_ [r [Hr [[E1 E2]|[E1 E2]]]]]; apply (appearances_pos T d (Some t) r Hr);
        [left|right]; unfold cond_my_deck_focus, cond_opponent_deck_focus; rewrite En;
        apply andb_true_iff; split; apply String.eqb_eq; assumption.
  - apply (appearances_pos T d (Some t) r0 Hr0).
    unfold cond_my_deck_focus, cond_opponent_deck_focus. rewrite En, !andb_true_r.
    destruct E0 as [E0|E0]; [left|right]; apply String.eqb_eq, E0.
Qed.

Lemma focus_selector_options_have_games_witness :
  0 < total_appearances [mk_game "X" "Y" FIRST WIN] "Y" (Some "t").
Proof.
  apply (focus_selector_options_have_games [mk_game "X" "Y" FIRST WIN] "Y" "t");
    vm_compute; auto.
Defined.

Lemma season_deck_names_eq (U : table) :
  sort_strings
    (fold_left (fun acc (col : row -> string) =>
        fold_left (fun acc d => set_add d acc) (filter valid_name (dropna_empty (map col U))) acc)
      [my_deck; opponent_deck] []) =
  get_all_analyzable_deck_names U.
Proof.
  cbn [fold_left].
  destruct (fold_set_add (filter valid_name (dropna_empty (map my_deck U))) [] (NoDup_nil _))
    as [N1 I1].
  destruct (fold_set_add (filter valid_name (dropna_empty (map opponent_deck U))) _ N1)
    as [N2 I2].
  destruct (all_decks_set_spec U) as [N I].
  unfold get_all_analyzable_deck_names. apply sort_strings_ext; [exact N2|apply NoDup_filter, N|].
  intros x. rewrite I2, I1, !filter_In, I, !dropna_map_In, !valid_name_spec. simpl.
  split.
  - intros [[[]|[[H1 [r [Hr E]]] [_ H2]]]|[[H1 [r [Hr E]]] [_ H2]]];
      (split; [split; [exact H1|eauto]|split; assumption]).
  - intros [[H1 [r [Hr [E|E]]]] [_ H2]]; [left; right|right];
      (split; [split; [exact H1|eauto]|split; assumption]).
Qed.

Lemma missing_selection_some (s : string) :
  (truthy s && negb (s =? NEW_ENTRY_LABEL))%string = negb (missing_selection (Some s)).
Proof. simpl. rewrite negb_orb, negb_involutive. reflexivity. Qed.

(** X4: the deck options of the input form are the label for a new entry,
    followed by the names [get_all_analyzable_deck_names] gives for the
    selected season's rows (for the whole table when no season is
    selected), or the label alone when there are no such names. *)
Theorem decks_for_season_input_spec (T : table) (selected_season : option string) :
  get_decks_for_season_input T selected_season =
  match get_all_analyzable_deck_names
          (match selected_season with
           | Some s => if missing_selection (Some s) then T else season_rows T s
           | None => T
           end) with
  | [] => [NEW_ENTRY_LABEL]
  | l => NEW_ENTRY_LABEL :: l
  end.
Proof.
  unfold get_decks_for_season_input. cbv zeta.
  assert (Hmiss : forall s, (truthy s && negb (s =? NEW_ENTRY_LABEL))%string =
                           negb (missing_selection (Some s))) by apply missing_selection_some.
  destruct selected_season as [s|]; [rewrite Hmiss; destruct (missing_selection (Some s))|];
    simpl negb; cbv iota; rewrite label_then_sorted, season_deck_names_eq;
    match goal with |- match ?U with _ => _ end = _ => destruct U; reflexivity end.
Qed.

Lemma missing_selection_false (s : string) :
  s <> "" -> s <> NEW_ENTRY_LABEL -> missing_selection (Some s) = false.
Proof.
  intros H1 H2. simpl. apply orb_false_iff. split.
  - apply negb_false_iff, truthy_spec, H1.
  - apply String.eqb_neq, H2.
Qed.

Lemma archetype_types_tail (U : table) (d : string) :
  d <> "" -> d <> SELECT_PLACEHOLDER ->
  tl (get_all_types_for_archetype U d) =
  sort_strings (filter valid_name
    (to_set (dropna_empty (map my_deck_type (filter (fun r => (my_deck r =? d)%string) U)) ++
             dropna_empty (map opponent_deck_type (filter (fun r => (opponent_deck r =? d)%string) U))))).
Proof.
  intros Hd Hsel. unfold get_all_types_for_archetype.
  replace (negb (truthy d) || (d =? SELECT_PLACEHOLDER)%string) with false; [reflexivity|].
  symmetry. apply orb_false_iff. split.
  - apply negb_false_iff, truthy_spec, Hd.
  - apply String.eqb_neq, Hsel.
Qed.

Lemma season_types_eq (U : table) (d : string) :
  d <> "" -> d <> SELECT_PLACEHOLDER ->
  sort_strings
    (fold_left (fun acc t => set_add t acc)
       (filter valid_name (dropna_empty (map opponent_deck_type
          (filter (fun r => (opponent_deck r =? d)%string) U))))
       (fold_left (fun acc t => set_add t acc)
          (filter valid_name (dropna_empty (map my_deck_type
             (filter (fun r => (my_deck r =? d)%string) U)))) [])) =
  tl (get_all_types_for_archetype U d).
Proof.
  intros Hd Hsel. rewrite archetype_types_tail by assumption.
  destruct (fold_set_add (filter valid_name (dropna_empty (map my_deck_type
             (filter (fun r => (my_deck r =? d)%string) U)))) [] (NoDup_nil _)) as [N1 I1].
  destruct (fold_set_add (filter valid_name (dropna_empty (map opponent_deck_type
             (filter (fun r => (opponent_deck r =? d)%string) U)))) _ N1) as [N2 I2].
  destruct (to_set_spec
    (dropna_empty (map my_deck_type (filter (fun r => (my_deck r =? d)%string) U)) ++
     dropna_empty (map opponent_deck_type (filter (fun r => (opponent_deck r =? d)%string) U))))
    as [N I].
  apply sort_strings_ext; [exact N2|apply NoDup_filter, N|].
  intros x. rewrite I2, I1, !filter_In, I, in_app_iff. simpl. tauto.
Qed.

(** X5: once a season and a deck name are chosen (neither empty nor the
    new-entry label, and the deck name not the analysis placeholder), the
    type options of the input form are the new-entry label followed by the
    types [get_all_types_for_archetype] lists for that deck within the
    season's rows, or the label alone when it lists none. *)
Theorem types_for_deck_and_season_input_spec (T : table) (s d : string)
    (Hs1 : s <> "") (Hs2 : s <> NEW_ENTRY_LABEL)
    (Hd1 : d <> "") (Hd2 : d <> NEW_ENTRY_LABEL) (Hd3 : d <> SELECT_PLACEHOLDER) :
  get_types_for_deck_and_season_input T (Some s) (Some d) =
  match tl (get_all_types_for_archetype (season_rows T s) d) with
  | [] => [NEW_ENTRY_LABEL]
  | l => NEW_ENTRY_LABEL :: l
  end.
Proof.
  unfold get_types_for_deck_and_season_input.
  rewrite (missing_selection_false s), (missing_selection_false d) by assumption.
  cbv zeta iota beta. simpl orb. cbv iota.
  rewrite label_then_sorted, season_types_eq by assumption.
  generalize (season_rows T s) as U. intros [|r U]; [|reflexivity].
  rewrite archetype_types_tail by assumption. reflexivity.
Qed.

Lemma types_for_deck_and_season_input_spec_witness :
  get_types_for_deck_and_season_input [mk_game "X" "Y" FIRST WIN] (Some "S1") (Some "X") =
  match tl (get_all_types_for_archetype (season_rows [mk_game "X" "Y" FIRST WIN] "S1") "X") with
  | [] => [NEW_ENTRY_LABEL]
  | l => NEW_ENTRY_LABEL :: l
  end.
Proof.
  apply types_for_deck_and_season_input_spec; discriminate.
Defined.

Lemma existsb_eqb_In (a : string) (l : list string) :
  existsb (String.eqb a) l = true <-> In a l.
Proof.
  rewrite existsb_exists. split.
  - intros [y [Hy E]]. apply String.eqb_eq in E. subst y. exact Hy.
  - intros H. exists a. split; [exact H|apply String.eqb_refl].
Qed.

Lemma unique_items_In (T : table) (column : row -> string) (pre : option (list string)) (x : string) :
  In x (unique_items T column pre) <->
  In x (match pre with Some p => p | None => [] end) \/
  (x <> "" /\ exists r, In r T /\ column r = x).
Proof.
  unfold unique_items. cbv zeta.
  destruct T as [|r0 T'].
  - split; [auto|]. intros [H|[_ [r [[] _]]]]. exact H.
  - pose proof (dropna_map_In column (r0 :: T') x) as Hv.
    destruct (dropna_empty (map column (r0 :: T'))) as [|v l] eqn:Ev.
    + split; [auto|]. intros [H|H]; [exact H|]. apply Hv in H. destruct H.
    + rewrite <- Ev in Hv |- *. destruct pre as [p|].
      * rewrite sort_strings_In, (proj2 (to_set_spec _)), in_app_iff, sort_strings_In,
          (proj2 (to_set_spec _)), Hv. reflexivity.
      * rewrite sort_strings_In, (proj2 (to_set_spec _)), Hv. simpl. tauto.
Qed.

Lemma unique_items_NoDup (T : table) (column : row -> string) :
  NoDup (unique_items T column None).
Proof.
  unfold unique_items. cbv zeta.
  destruct T as [|r0 T']; [constructor|].
  destruct (dropna_empty (map column (r0 :: T'))) as [|v l]; [constructor|].
  apply sort_strings_NoDup, to_set_spec.
Qed.

(** X6: the options [get_unique_items_with_new_option] builds are the
    predefined options and the non-empty values of the column, without the
    new-entry label, plus the label itself only when neither the predefined
    options nor the column hold its text (so a cell holding that text
    removes the "new value" option); without predefined options no option
    is listed twice. *)
Theorem new_option_items_spec (T : table) (column : row -> string)
    (predefined_options : option (list string)) :
  (forall x, In x (get_unique_items_with_new_option T column predefined_options) <->
     (x = NEW_ENTRY_LABEL /\
      ~ (In NEW_ENTRY_LABEL (match predefined_options with Some p => p | None => [] end) \/
         exists r, In r T /\ column r = NEW_ENTRY_LABEL)) \/
     (x <> NEW_ENTRY_LABEL /\
      (In x (match predefined_options with Some p => p | None => [] end) \/
       (x <> "" /\ exists r, In r T /\ column r = x)))) /\
  NoDup (get_unique_items_with_new_option T column None).
Proof.
  split.
  - intros x. unfold get_unique_items_with_new_option. cbv zeta.
    rewrite in_app_iff, filter_In, negb_true_iff, String.eqb_neq, unique_items_In.
    pose proof (unique_items_In T column predefined_options NEW_ENTRY_LABEL) as HN.
    destruct (existsb (String.eqb NEW_ENTRY_LABEL) (unique_items T column predefined_options)) eqn:E.
    + apply existsb_eqb_In, HN in E.
      split; [intros [[]|[H1 H2]]; right; auto|].
      intros [[_ H]|[H1 H2]]; [|right; auto]. exfalso. apply H.
      destruct E as [E|[_ E]]; auto.
    + assert (E' : ~ In NEW_ENTRY_LABEL (unique_items T column predefined_options))
        by (rewrite <- existsb_eqb_In, E; discriminate).
      rewrite HN in E'. split.
      * intros [[<-|[]]|[H1 H2]]; [left; split; [reflexivity|]|right; auto].
        intros [H|[r H]]; apply E'; [left; exact H|right; split; [apply NEW_ENTRY_LABEL_nonempty|eauto]].
      * intros [[-> _]|[H1 H2]]; [left; left; reflexivity|right; auto].
  - unfold get_unique_items_with_new_option. cbv zeta.
    pose proof (unique_items_NoDup T column) as N.
    destruct (existsb (String.eqb NEW_ENTRY_LABEL) (unique_items T column None)).
    + apply NoDup_filter, N.
    + constructor; [|apply NoDup_filter, N].
      rewrite filter_In, String.eqb_refl. intros [_ H]. discriminate.
Qed.

Lemma past_values_In (l : list string) (x : string) :
  In x (match l with [] => [] | _ => sort_strings (to_set l) end) <-> In x l.
Proof.
  destruct l as [|v l]; [reflexivity|].
  rewrite sort_strings_In. apply to_set_spec.
Qed.

(** X7: the environment options of the input form start with the new-entry
    label, followed once each and sorted by every non-empty environment
    other than that label that is predefined ("Waic内", "野良", "大会") or
    recorded in the table; the predefined ones are always offered. *)
Theorem environment_options_spec (T : table) :
  exists l, environment_options_input T = NEW_ENTRY_LABEL :: l /\
    NoDup l /\ StronglySorted (fun a b => String.leb a b = true) l /\
    (forall x, In x l <-> x <> "" /\ x <> NEW_ENTRY_LABEL /\
       (In x predefined_environments \/ exists r, In r T /\ environment r = x)).
Proof.
  unfold environment_options_input. cbv zeta. eexists. split; [reflexivity|].
  destruct (sorted_filter_spec (fun opt => truthy opt && negb (opt =? NEW_ENTRY_LABEL)%string)
    (to_set (predefined_environments ++
       match dropna_empty (map environment T) with
       | [] => [] | _ => sort_strings (to_set (dropna_empty (map environment T))) end))
    (proj1 (to_set_spec _))) as [N [S I]].
  split; [exact N|split; [exact S|]].
  intros x. rewrite I, (proj2 (to_set_spec _)), in_app_iff, past_values_In, dropna_map_In,
    andb_true_iff, truthy_spec, negb_true_iff, String.eqb_neq.
  split.
  - intros [[H1 H2] [H|[_ H]]]; auto.
  - intros [H1 [H2 [H|H]]]; auto.
Qed.

Lemma app_nil_iff {A : Type} (l1 l2 : list A) : l1 ++ l2 = [] <-> l1 = [] /\ l2 = [].
Proof.
  split; [apply app_eq_nil|]. intros [-> ->]. reflexivity.
Qed.

Lemma missing_selection_ok (v : option string) :
  missing_selection v = false <-> exists s, v = Some s /\ s <> "" /\ s <> NEW_ENTRY_LABEL.
Proof.
  destruct v as [s|]; simpl.
  - rewrite orb_false_iff, negb_false_iff, truthy_spec, String.eqb_neq. split.
    + intros [H1 H2]. eauto.
    + intros [s' [E [H1 H2]]]. injection E as <-. auto.
  - split; [discriminate|]. intros [s [E _]]. discriminate.
Qed.

Lemma check_nil (v : option string) (msg : string) :
  (if missing_selection v then [msg] else []) = [] <-> missing_selection v = false.
Proof. destruct (missing_selection v); split; congruence. Qed.

Lemma error_messages_nil (F : form_state) :
  error_messages F = [] <->
  missing_selection (final_season F) = false /\ missing_selection (final_my_deck F) = false /\
  missing_selection (final_my_deck_type F) = false /\
  missing_selection (final_opponent_deck F) = false /\
  missing_selection (final_opponent_deck_type F) = false /\
  missing_selection (final_environment F) = false /\ inp_finish_turn F <> None.
Proof.
  unfold error_messages. cbv zeta beta. rewrite !app_nil_iff, !check_nil.
  destruct (inp_finish_turn F); split; intros H; intuition congruence.
Qed.

(** X8: the input form records a game exactly when the season, both deck
    names, both deck types and the environment it resolves are present,
    non-empty and not the new-entry label, and a finish turn is given; the
    record then carries these values and that finish turn. *)
Theorem submitted_record_spec (F : form_state) (date_val : option Z) :
  let ok (v : option string) := exists s, v = Some s /\ s <> "" /\ s <> NEW_ENTRY_LABEL in
  (submitted_record F date_val <> None <->
     ok (final_season F) /\ ok (final_my_deck F) /\ ok (final_my_deck_type F) /\
     ok (final_opponent_deck F) /\ ok (final_opponent_deck_type F) /\
     ok (final_environment F) /\ inp_finish_turn F <> None) /\
  (forall r, submitted_record F date_val = Some r ->
     Some (season r) = final_season F /\ Some (environment r) = final_environment F /\
     Some (my_deck r) = final_my_deck F /\ Some (my_deck_type r) = final_my_deck_type F /\
     Some (opponent_deck r) = final_opponent_deck F /\
     Some (opponent_deck_type r) = final_opponent_deck_type F /\
     finish_turn r = inp_finish_turn F /\ finish_turn r <> None).
Proof.
  intros ok. unfold submitted_record.
  pose proof (error_messages_nil F) as HE. rewrite !missing_selection_ok in HE.
  split.
  - destruct (error_messages F) eqn:E.
    + split; [intros _; apply HE; reflexivity|discriminate].
    + split; [congruence|]. intros H. apply HE in H. discriminate.
  - intros r. destruct (error_messages F) eqn:E; [|discriminate].
    intros H. injection H as <-. cbn [season environment my_deck my_deck_type opponent_deck
      opponent_deck_type finish_turn].
    destruct (proj1 HE eq_refl) as [[s1 [E1 _]] [[s2 [E2 _]] [[s3 [E3 _]] [[s4 [E4 _]]
      [[s5 [E5 _]] [[s6 [E6 _]] H7]]]]]].
    rewrite E1, E2, E3, E4, E5, E6. cbn. auto 10.
Qed.

Lemma submitted_record_spec_witness :
  let F := mkForm (Some "S1") None (Some NEW_ENTRY_LABEL) (Some "E") (Some "X") None (Some "a") None
                  (Some "Y") None (Some "b") None FIRST WIN (Some 5%Z) None in
  exists r, submitted_record F None = Some r /\
     (Some (season r) = final_season F /\ Some (environment r) = final_environment F /\
      Some (my_deck r) = final_my_deck F /\ Some (my_deck_type r) = final_my_deck_type F /\
      Some (opponent_deck r) = final_opponent_deck F /\
      Some (opponent_deck_type r) = final_opponent_deck_type F /\
      finish_turn r = inp_finish_turn F /\ finish_turn r <> None).
Proof.
  intros F. eexists. split; [reflexivity|].
  apply (proj2 (submitted_record_spec F None)). reflexivity.
Defined.

Lemma option_Z_eqb_eq (a b : option Z) : option_Z_eqb a b = true <-> a = b.
Proof.
  destruct a as [x|], b as [y|]; simpl; try (split; congruence).
  rewrite Z.eqb_eq. split; congruence.
Qed.

Lemma row_eqb_eq (r1 r2 : row) : row_eqb r1 r2 = true <-> r1 = r2.
Proof.
  destruct r1, r2. unfold row_eqb. simpl.
  rewrite !andb_true_iff, !String.eqb_eq, !option_Z_eqb_eq. split.
  - intros [[[[[[[[[[? ?] ?] ?] ?] ?] ?] ?] ?] ?] ?]. subst. reflexivity.
  - intros E. injection E. intros. subst. tauto.
Qed.

Lemma fold_drop_duplicates (l acc : table) :
  NoDup acc ->
  NoDup (fold_left (fun acc r => if existsb (row_eqb r) acc then acc else acc ++ [r]) l acc) /\
  (forall x, In x (fold_left (fun acc r => if existsb (row_eqb r) acc then acc else acc ++ [r]) l acc)
             <-> In x acc \/ In x l).
Proof.
  revert acc. induction l as [|y l IH]; intros acc Hacc; simpl.
  - split; [exact Hacc|]. intros x. tauto.
  - destruct (existsb (row_eqb y) acc) eqn:E.
    + apply existsb_exists in E as [z [Hz Ez]]. apply row_eqb_eq in Ez. subst z.
      destruct (IH acc Hacc) as [Hn Hi]. split; [exact Hn|].
      intros x. rewrite Hi. split; [tauto|]. intros [H|[<-|H]]; auto.
    + assert (Hy : ~ In y acc).
      { intros Hy. assert (existsb (row_eqb y) acc = true) as E'
          by (apply existsb_exists; exists y; split; [exact Hy|apply row_eqb_eq; reflexivity]).
        congruence. }
      assert (Hn' : NoDup (acc ++ [y])).
      { apply NoDup_app; [exact Hacc|constructor; [intros []|constructor]|].
        intros x Hx [<-|[]]. contradiction. }
      destruct (IH _ Hn') as [Hn Hi]. split; [exact Hn|].
      intros x. rewrite Hi, in_app_iff. simpl. split; intros H; repeat destruct H as [H|H]; subst; auto; contradiction.
Qed.

(** X9: the memo list of the focus deck holds each row at most once (equal
    rows, such as two identical records or a mirror game seen from both
    sides, are shown once) and holds exactly the rows of the focus deck,
    on either side, whose memo is non-blank after stripping and is not
    "nan" in any letter case. *)
Theorem memo_records_spec (T : table) (deck : string) (ty : option string) :
  NoDup (all_memo_games T deck ty) /\
  (forall r, In r (all_memo_games T deck ty) <->
     In r T /\ (cond_my_deck_focus deck ty r = true \/ cond_opponent_deck_focus deck ty r = true) /\
     py_strip (memo r) <> "" /\ py_lower (memo r) <> "nan").
Proof.
  unfold all_memo_games, drop_duplicates.
  destruct (fold_drop_duplicates
    (filter memo_filter (focus_as_my_deck_games T deck ty) ++
     filter memo_filter (focus_as_opponent_deck_games T deck ty)) [] (NoDup_nil _)) as [N I].
  split; [exact N|]. intros r. rewrite I, in_app_iff, !filter_In.
  unfold focus_as_my_deck_games, focus_as_opponent_deck_games, memo_filter.
  rewrite !filter_In, !andb_true_iff, !negb_true_iff, !String.eqb_neq. simpl. tauto.
Qed.

Lemma deck_appearances_pos (T : table) (d : string) (r : row) :
  In r T -> my_deck r = d \/ opponent_deck r = d -> 0 < total_appearances_deck_a T d.
Proof.
  intros Hr E. unfold total_appearances_deck_a, games_as_my_deck_df, games_as_opponent_deck_df.
  destruct E as [E|E].
  - pose proof (count_pos (fun r => (my_deck r =? d)%string) T r Hr) as H.
    unfold count in H. rewrite E, String.eqb_refl in H. specialize (H eq_refl). lia.
  - pose proof (count_pos (fun r => (opponent_deck r =? d)%string) T r Hr) as H.
    unfold count in H. rewrite E, String.eqb_refl in H. specialize (H eq_refl). lia.
Qed.

(** X10: the general overview has exactly one row per name of
    [get_all_analyzable_deck_names], in that order before sorting: no
    analyzable deck is dropped for lack of appearances. *)
Theorem general_overview_one_row_per_deck (T : table) :
  map g_deck (general_performance_data T) = get_all_analyzable_deck_names T.
Proof.
  unfold general_performance_data.
  assert (H : forall d, In d (get_all_analyzable_deck_names T) ->
            d <> "" /\ 0 < total_appearances_deck_a T d).
  { intros d Hd. apply analyzable_names_In in Hd as [[Hne _] [r [Hr E]]].
    split; [exact Hne|]. eapply deck_appearances_pos; eauto. }
  induction (get_all_analyzable_deck_names T) as [|d l IH]; [reflexivity|].
  simpl. destruct (H d (or_introl eq_refl)) as [H1 H2].
  replace (negb (truthy d)) with false by (symmetry; apply negb_false_iff, truthy_spec, H1).
  replace (0 <? total_appearances_deck_a T d) with true by (symmetry; apply Nat.ltb_lt, H2).
  simpl. f_equal. apply IH. intros d' Hd'. apply H. right. exact Hd'.
Qed.

Lemma pct_bounds (w n : nat) : 0 < n -> w <= n -> (0 <= pct w n <= 100)%Q.
Proof.
  intros Hn Hw. destruct n as [|n]; [lia|]. rewrite pct_succ.
  unfold Qle; cbn [Qnum Qden]. rewrite ?Zpos_P_of_succ_nat. split; nia.
Qed.

Lemma Qnat_succ (n : nat) : (Qnat (S n) == Qnat n + 1)%Q.
Proof. unfold Qnat. rewrite Nat2Z.inj_succ, <- Z.add_1_r, inject_Z_plus. reflexivity. Qed.

Lemma sum_bounds (l : list Q) :
  Forall (fun q => 0 <= q <= 100)%Q l ->
  (0 <= fold_right Qplus 0 l <= 100 * Qnat (length l))%Q.
Proof.
  induction 1 as [|q l [Hq1 Hq2] _ [IH1 IH2]]; simpl.
  - unfold Qnat; simpl. split; discriminate.
  - rewrite Qnat_succ. split.
    + apply (Qplus_le_compat 0 q 0); assumption.
    + setoid_replace (100 * (Qnat (length l) + 1))%Q with (100 + 100 * Qnat (length l))%Q by ring.
      apply Qplus_le_compat; assumption.
Qed.

Lemma mean_bounds (l : list Q) :
  l <> [] -> Forall (fun q => 0 <= q <= 100)%Q l -> (0 <= mean l <= 100)%Q.
Proof.
  intros Hne Hl. destruct (sum_bounds l Hl) as [H1 H2]. unfold mean.
  assert (Hn : (0 < Qnat (length l))%Q).
  { destruct l as [|x l]; [congruence|]. unfold Qnat, Qlt; simpl. lia. }
  split.
  - apply Qle_shift_div_l; [exact Hn|]. rewrite Qmult_0_l. exact H1.
  - apply Qle_shift_div_r; [exact Hn|]. exact H2.
Qed.

Lemma fold_guarded_Forall (P : Q -> Prop) (g : string -> nat) (f : string -> Q)
    (l : list string) (acc : list Q) :
  (forall o, 0 < g o -> P (f o)) -> Forall P acc ->
  Forall P (fold_left (fun acc o => if (0 <? g o)%nat then acc ++ [f o] else acc) l acc).
Proof.
  revert acc. induction l as [|o l IH]; intros acc H Hacc; simpl; [exact Hacc|].
  apply IH; [exact H|]. destruct (0 <? g o) eqn:E; [|exact Hacc].
  apply Forall_app; split; [exact Hacc|]. constructor; [|constructor].
  apply H, Nat.ltb_lt, E.
Qed.

Lemma guarded_rate_bounds (w n : nat) (q : Q) :
  w <= n -> (if (0 <? n)%nat then Some (pct w n) else None) = Some q -> (0 <= q <= 100)%Q.
Proof.
  intros Hw E. destruct (0 <? n) eqn:En; [|discriminate]. injection E as <-.
  apply pct_bounds; [apply Nat.ltb_lt, En|exact Hw].
Qed.

Lemma count_filter_le (p q : row -> bool) (l : table) : count p (filter q l) <= count q l.
Proof. unfold count at 2. apply count_le. Qed.

(** X11: every row of the general overview is consistent: wins and losses
    add up to the appearances, the games going first do not exceed them,
    and the overall rate, the average matchup rate and the first/second
    rates, where present, lie between 0 and 100. *)
Theorem general_overview_row_bounds (T : table) :
  Forall (fun g =>
      g_total_wins g + g_total_losses g = g_total_appearances g /\
      g_first_games g <= g_total_appearances g /\
      (0 <= g_overall_rate g <= 100)%Q /\
      (forall q, g_avg_matchup g = Some q -> (0 <= q <= 100)%Q) /\
      (forall q, g_first_rate g = Some q -> (0 <= q <= 100)%Q) /\
      (forall q, g_second_rate g = Some q -> (0 <= q <= 100)%Q))
    (general_performance_data T).
Proof.
  unfold general_performance_data. apply Forall_flat_map, Forall_forall.
  intros d _. destruct (negb (truthy d)); [constructor|].
  destruct (0 <? total_appearances_deck_a T d) eqn:Hpos; [|constructor].
  apply Nat.ltb_lt in Hpos. constructor; [|constructor]. cbn [g_total_wins g_total_losses
    g_total_appearances g_first_games g_overall_rate g_avg_matchup g_first_rate g_second_rate].
  assert (Hw : total_wins_deck_a T d <= total_appearances_deck_a T d).
  { unfold total_wins_deck_a, total_appearances_deck_a.
    pose proof (count_le (is_result WIN) (games_as_my_deck_df T d)).
    pose proof (count_le (is_result LOSS) (games_as_opponent_deck_df T d)). lia. }
  split; [unfold total_losses_deck_a; lia|].
  split.
  { unfold total_games_deck_a_first, total_appearances_deck_a.
    pose proof (count_le (is_first_second FIRST) (games_as_my_deck_df T d)).
    pose proof (count_le (is_first_second SECOND) (games_as_opponent_deck_df T d)). lia. }
  split.
  { unfold simple_overall_win_rate_deck_a.
    replace (0 <? total_appearances_deck_a T d) with true by (symmetry; apply Nat.ltb_lt, Hpos).
    apply pct_bounds; assumption. }
  split.
  { intros q. unfold avg_matchup_wr_deck_a.
    pose proof (fold_guarded_Forall (fun q => 0 <= q <= 100)%Q
      (total_games_vs_specific_opponent T d)
      (fun o => pct (total_wins_for_a_vs_specific_opponent T d o)
                    (total_games_vs_specific_opponent T d o))
      (unique_opponents_faced_by_deck_a T d) []) as HF.
    fold (matchup_win_rates_for_deck_a T d) in HF.
    destruct (matchup_win_rates_for_deck_a T d) as [|x l] eqn:E; [discriminate|].
    intros Hq. injection Hq as <-. rewrite <- E. apply mean_bounds; [congruence|].
    apply HF; [|constructor]. intros o Ho. apply pct_bounds; [exact Ho|].
    unfold total_wins_for_a_vs_specific_opponent, total_games_vs_specific_opponent.
    pose proof (count_le (is_result WIN) (a_vs_opp_my_games T d o)).
    pose proof (count_le (is_result LOSS) (a_vs_opp_opponent_games T d o)). lia. }
  split.
  { intros q. apply guarded_rate_bounds. unfold wins_deck_a_first, total_games_deck_a_first.
    pose proof (count_filter_le (is_result WIN) (is_first_second FIRST) (games_as_my_deck_df T d)).
    pose proof (count_filter_le (is_result LOSS) (is_first_second SECOND) (games_as_opponent_deck_df T d)).
    lia. }
  { intros q. apply guarded_rate_bounds. unfold wins_deck_a_second, total_games_deck_a_second.
    pose proof (count_filter_le (is_result WIN) (is_first_second SECOND) (games_as_my_deck_df T d)).
    pose proof (count_filter_le (is_result LOSS) (is_first_second FIRST) (games_as_opponent_deck_df T d)).
    lia. }
Qed.

Lemma avg_desc_le_total (g1 g2 : general_row) :
  avg_desc_le g1 g2 = true \/ avg_desc_le g2 g1 = true.
Proof.
  unfold avg_desc_le.
  destruct (g_avg_matchup g1) as [a|], (g_avg_matchup g2) as [b|]; auto.
  destruct (Qlt_le_dec a b) as [H|H].
  - right. apply Qle_bool_iff, Qlt_le_weak, H.
  - left. apply Qle_bool_iff, H.
Qed.

Lemma avg_desc_le_trans (g1 g2 g3 : general_row) :
  avg_desc_le g1 g2 = true -> avg_desc_le g2 g3 = true -> avg_desc_le g1 g3 = true.
Proof.
  unfold avg_desc_le.
  destruct (g_avg_matchup g1) as [a|], (g_avg_matchup g2) as [b|],
    (g_avg_matchup g3) as [c|]; try discriminate; auto.
  rewrite !Qle_bool_iff. intros H1 H2. eapply Qle_trans; eassumption.
Qed.

Lemma avg_desc_le_ranked (g1 g2 : general_row) :
  avg_desc_le g1 g2 = true -> ranked_before g1 g2.
Proof.
  unfold avg_desc_le, ranked_before.
  destruct (g_avg_matchup g1) as [a|], (g_avg_matchup g2) as [b|]; auto.
  - apply Qle_bool_iff.
  - discriminate.
Qed.

(** X12: the displayed overview holds exactly the rows of the computed
    overview, ordered by average matchup rate from highest to lowest, with
    the rows that have no average matchup rate last. *)
Theorem general_overview_sorted (T : table) :
  Permutation (gen_perf_df_sorted T) (general_performance_data T) /\
  StronglySorted ranked_before (gen_perf_df_sorted T).
Proof.
  unfold gen_perf_df_sorted. split; [apply sort_by_perm|].
  eapply StronglySorted_weaken; [exact avg_desc_le_ranked|].
  apply sort_by_strongly_sorted; [exact avg_desc_le_total|exact avg_desc_le_trans].
Qed.

Lemma filter_nonempty {A : Type} (p : A -> bool) (l : list A) (x : A) :
  In x l -> p x = true -> filter p l <> [].
Proof.
  intros Hx Hp E. assert (In x (filter p l)) by (now apply filter_In). rewrite E in H. destruct H.
Qed.

Lemma filter_none {A : Type} (p : A -> bool) (l : list A) :
  (forall x, In x l -> p x = false) -> filter p l = [].
Proof.
  induction l as [|x l IH]; intros H; simpl; [reflexivity|].
  rewrite (H x (or_introl eq_refl)). apply IH. intros y Hy. apply H. now right.
Qed.

Lemma listed_value_In (f : row -> string) (T : table) (x : string) :
  In x (sort_strings (filter valid_name (to_set (dropna_empty (map f T))))) ->
  exists r, In r T /\ f r = x.
Proof.
  rewrite sort_strings_In, filter_In, (proj2 (to_set_spec _)), dropna_map_In.
  intros [[_ H] _]. exact H.
Qed.

(** X13: on a non-empty table, every season offered by the analysis
    filter, the placeholder included, selects at least one game, and so
    does every offered environment other than the placeholder when it is
    selected alone. *)
Theorem analysis_filter_options_nonempty (T : table) (HT : T <> []) :
  (forall s, In s (all_seasons T) -> filter_for_analysis T s [] <> []) /\
  (forall e, In e (all_environments T) -> e <> SELECT_PLACEHOLDER ->
     filter_for_analysis T SELECT_PLACEHOLDER [e] <> []).
Proof.
  split.
  - intros s Hs. unfold filter_for_analysis.
    destruct (truthy s && negb (s =? SELECT_PLACEHOLDER))%string eqn:G; [|exact HT].
    apply andb_true_iff in G as [_ G]. apply negb_true_iff, String.eqb_neq in G.
    destruct Hs as [Hs|Hs]; [congruence|].
    destruct (listed_value_In season T s Hs) as [r [Hr Er]].
    apply (filter_nonempty _ _ r Hr). subst s. apply String.eqb_refl.
  - intros e He Hne. destruct He as [He|He]; [congruence|].
    destruct (listed_value_In environment T e He) as [r [Hr Er]].
    unfold filter_for_analysis.
    replace (truthy SELECT_PLACEHOLDER && negb (SELECT_PLACEHOLDER =? SELECT_PLACEHOLDER))%string
      with false by (now rewrite String.eqb_refl, andb_false_r).
    apply (filter_nonempty _ _ r Hr). simpl. subst e. now rewrite String.eqb_refl.
Qed.

Lemma analysis_filter_options_nonempty_witness :
  let T := [mk_game "X" "Y" FIRST WIN] in
  T <> [] /\
  (forall s, In s (all_seasons T) -> filter_for_analysis T s [] <> []) /\
  (forall e, In e (all_environments T) -> e <> SELECT_PLACEHOLDER ->
     filter_for_analysis T SELECT_PLACEHOLDER [e] <> []).
Proof.
  cbv zeta. split; [discriminate|].
  apply (analysis_filter_options_nonempty [mk_game "X" "Y" FIRST WIN]). discriminate.
Defined.

(** X14: the placeholder is offered among the environments of the
    analysis filter; selecting it alone leaves no game to analyse, unless
    some game records the placeholder text as its environment. *)
Theorem analysis_environment_placeholder_selects_nothing (T : table) (s : string)
    (H : forall r, In r T -> environment r <> SELECT_PLACEHOLDER) :
  In SELECT_PLACEHOLDER (all_environments T) /\
  filter_for_analysis T s [SELECT_PLACEHOLDER] = [].
Proof.
  split; [now left|].
  rewrite filter_for_analysis_as_filter. apply filter_none. intros r Hr.
  unfold analysis_keep. simpl. rewrite orb_false_r.
  apply andb_false_iff. right. apply String.eqb_neq, H, Hr.
Qed.

Lemma analysis_environment_placeholder_selects_nothing_witness :
  let T := [mk_game "X" "Y" FIRST WIN] in
  (forall r, In r T -> environment r <> SELECT_PLACEHOLDER) /\
  In SELECT_PLACEHOLDER (all_environments T) /\
  filter_for_analysis T SELECT_PLACEHOLDER [SELECT_PLACEHOLDER] = [].
Proof.
  cbv zeta.
  assert (H : forall r, In r [mk_game "X" "Y" FIRST WIN] -> environment r <> SELECT_PLACEHOLDER).
  { intros r [<-|[]]. discriminate. }
  split; [exact H|].
  exact (analysis_environment_placeholder_selects_nothing _ SELECT_PLACEHOLDER H).
Defined.

Lemma matchup_stats_consistent (n t : string) (c1 c2 : table) :
  0 < length c1 + length c2 -> matchup_row_consistent (matchup_stats n t c1 c2).
Proof.
  intros Hpos. unfold matchup_row_consistent, matchup_stats.
  cbn [games_played_count focus_deck_wins_count fd_first_games_count win_rate_vs_opp
    win_rate_fd_first win_rate_fd_second].
  pose proof (count_le (is_result WIN) c1). pose proof (count_le (is_result LOSS) c2).
  pose proof (count_le (is_first_second FIRST) c1). pose proof (count_le (is_first_second SECOND) c2).
  unfold count in H1, H2.
  split; [exact Hpos|]. split; [lia|]. split; [lia|]. split.
  { replace (0 <? length c1 + length c2) with true by (symmetry; apply Nat.ltb_lt, Hpos).
    apply pct_bounds; [exact Hpos|lia]. }
  split; intros q; apply guarded_rate_bounds.
  - pose proof (count_le (is_result WIN) (filter (is_first_second FIRST) c1)).
    pose proof (count_le (is_result LOSS) (filter (is_first_second SECOND) c2)). lia.
  - pose proof (count_le (is_result WIN) (filter (is_first_second SECOND) c1)).
    pose proof (count_le (is_result LOSS) (filter (is_first_second FIRST) c2)). lia.
Qed.

Lemma guarded_stats_Forall {B : Type} (f : B -> table) (g : B -> table)
    (nm tp : B -> string) (l : list B) :
  Forall matchup_row_consistent
    (flat_map (fun o => if (0 <? length (f o) + length (g o))%nat
                        then [matchup_stats (nm o) (tp o) (f o) (g o)] else []) l).
Proof.
  apply Forall_flat_map, Forall_forall. intros o _.
  destruct (0 <? length (f o) + length (g o)) eqn:E; constructor; [|constructor].
  apply matchup_stats_consistent, Nat.ltb_lt, E.
Qed.

(** X15: every row of the matchup table, type rows and ALL TYPES rows
    alike, counts at least one game, at most as many wins and games going
    first as games, and has its rates between 0 and 100. *)
Theorem matchup_rows_consistent (T : table) (deck : string) (ty : option string) :
  Forall matchup_row_consistent (matchup_df_final T deck ty).
Proof.
  assert (H : Forall matchup_row_consistent (matchup_data T deck ty ++ agg_matchup_data T deck ty)).
  { apply Forall_app. split.
    - unfold matchup_data. apply (guarded_stats_Forall (case1_games T deck ty) (case2_games T deck ty) fst snd).
    - unfold agg_matchup_data.
      apply (guarded_stats_Forall (case1_agg_games_total T deck ty) (case2_agg_games_total T deck ty)
        (fun o => o) (fun _ => ALL_TYPES_PLACEHOLDER)). }
  unfold matchup_df_final. destruct (matchup_data T deck ty) as [|m l]; [constructor|].
  apply Forall_forall. intros x Hx. rewrite Forall_forall in H. apply H.
  eapply Permutation_in; [apply sort_by_perm|exact Hx].
Qed.

Lemma count_turn_order_split (l : table) :
  count (is_first_second FIRST) l + count (is_first_second SECOND) l +
  count undetermined_turn_order l = length l.
Proof.
  unfold count, undetermined_turn_order. induction l as [|r l IH]; simpl; [reflexivity|].
  destruct (is_first_second FIRST r) eqn:E1.
  - replace (is_first_second SECOND r) with false.
    + simpl. lia.
    + symmetry. unfold is_first_second in *. apply String.eqb_eq in E1. rewrite E1.
      exact FIRST_SECOND_neq.
  - destruct (is_first_second SECOND r); simpl; lia.
Qed.

(** X16: the metrics shown for the focus deck are consistent: wins and
    losses add up to the appearances; the games going first, the games
    going second and the games with neither "先攻" nor "後攻" recorded
    add up to the appearances; and every rate shown lies between 0 and 100. *)
Theorem focus_metrics_consistent (T : table) (deck : string) (ty : option string) :
  total_wins_for_focus_deck T deck ty + total_losses_for_focus_deck T deck ty =
    total_appearances T deck ty /\
  total_games_focus_first T deck ty + total_games_focus_second T deck ty +
    count undetermined_turn_order
      (focus_as_my_deck_games T deck ty ++ focus_as_opponent_deck_games T deck ty) =
    total_appearances T deck ty /\
  (0 <= win_rate_for_focus_deck T deck ty <= 100)%Q /\
  (forall q, win_rate_focus_first T deck ty = Some q -> (0 <= q <= 100)%Q) /\
  (forall q, win_rate_focus_second T deck ty = Some q -> (0 <= q <= 100)%Q).
Proof.
  set (M := focus_as_my_deck_games T deck ty).
  set (O := focus_as_opponent_deck_games T deck ty).
  assert (Hw : total_wins_for_focus_deck T deck ty <= total_appearances T deck ty).
  { unfold total_wins_for_focus_deck, total_appearances. fold M O.
    pose proof (count_le (is_result WIN) M). pose proof (count_le (is_result LOSS) O). lia. }
  split; [unfold total_losses_for_focus_deck; lia|].
  split.
  { unfold total_games_focus_first, total_games_focus_second, total_appearances. fold M O.
    rewrite count_app. pose proof (count_turn_order_split M). pose proof (count_turn_order_split O).
    lia. }
  split.
  { unfold win_rate_for_focus_deck. cbv zeta.
    destruct (0 <? total_appearances T deck ty) eqn:E.
    - apply pct_bounds; [apply Nat.ltb_lt, E|exact Hw].
    - split; discriminate. }
  split; intros q; apply guarded_rate_bounds.
  - unfold wins_focus_first, total_games_focus_first. fold M O.
    pose proof (count_filter_le (is_result WIN) (is_first_second FIRST) M).
    pose proof (count_filter_le (is_result LOSS) (is_first_second SECOND) O). lia.
  - unfold wins_focus_second, total_games_focus_second. fold M O.
    pose proof (count_filter_le (is_result WIN) (is_first_second SECOND) M).
    pose proof (count_filter_le (is_result LOSS) (is_first_second FIRST) O). lia.
Qed.

Lemma pair_eqb_eq (p q : string * string) : pair_eqb p q = true <-> p = q.
Proof.
  destruct p as [a b], q as [c d]. unfold pair_eqb. simpl.
  rewrite andb_true_iff, !String.eqb_eq. split; [intros [-> ->]; reflexivity|].
  intros E; injection E as -> ->. auto.
Qed.

Lemma pair_add_In (x y : string * string) (s : list (string * string)) :
  In x (pair_add y s) <-> In x s \/ x = y.
Proof.
  unfold pair_add. destruct (existsb (pair_eqb y) s) eqn:E.
  - apply existsb_exists in E as [z [Hz Ez]]. apply pair_eqb_eq in Ez. subst z.
    split; [auto|]. intros [H| ->]; auto.
  - rewrite in_app_iff. simpl. split; intros [H|H]; auto.
    + destruct H as [H|[]]. auto.
Qed.

Lemma pair_add_NoDup (y : string * string) (s : list (string * string)) :
  NoDup s -> NoDup (pair_add y s).
Proof.
  intros H. unfold pair_add. destruct (existsb (pair_eqb y) s) eqn:E; [exact H|].
  apply NoDup_app; [exact H|constructor; [intros []|constructor]|].
  intros x Hx [<-|[]]. assert (existsb (pair_eqb y) s = true); [|congruence].
  apply existsb_exists. exists y. split; [exact Hx|]. now apply pair_eqb_eq.
Qed.

Lemma fold_pair_add (f : row -> string * string) (l : table) (acc : list (string * string)) :
  NoDup acc ->
  NoDup (fold_left (fun acc r => pair_add (f r) acc) l acc) /\
  (forall x, In x (fold_left (fun acc r => pair_add (f r) acc) l acc) <->
             In x acc \/ exists r, In r l /\ f r = x).
Proof.
  revert acc. induction l as [|r l IH]; intros acc Hacc; simpl.
  - split; [exact Hacc|]. intros x. split; [auto|]. intros [H|[r [[] _]]]. exact H.
  - destruct (IH (pair_add (f r) acc) (pair_add_NoDup _ _ Hacc)) as [N I].
    split; [exact N|]. intros x. rewrite I, pair_add_In. split.
    + intros [[H|H]|[r' [H1 H2]]]; eauto.
    + intros [H|[r' [[<-|H1] H2]]]; eauto.
Qed.

Lemma faced_tuples_spec (T : table) (deck : string) (ty : option string) :
  NoDup (all_faced_opponents_tuples T deck ty) /\
  (forall p, In p (all_faced_opponents_tuples T deck ty) <->
     (truthy (fst p) && negb (py_lower (fst p) =? "nan"))%string = true /\
     ((exists r, In r (focus_as_my_deck_games T deck ty) /\
                 (opponent_deck r, opponent_deck_type r) = p) \/
      (exists r, In r (focus_as_opponent_deck_games T deck ty) /\
                 (my_deck r, my_deck_type r) = p))).
Proof.
  unfold all_faced_opponents_tuples, opponents_set.
  destruct (fold_pair_add (fun r => (opponent_deck r, opponent_deck_type r))
    (focus_as_my_deck_games T deck ty) [] (NoDup_nil _)) as [N1 I1].
  destruct (fold_pair_add (fun r => (my_deck r, my_deck_type r))
    (focus_as_opponent_deck_games T deck ty) _ N1) as [N2 I2].
  split.
  - eapply Permutation_NoDup; [symmetry; apply sort_by_perm|]. apply NoDup_filter, N2.
  - intros p. split.
    + intros H. apply (Permutation_in _ (sort_by_perm _ _)) in H.
      apply filter_In in H as [H G]. split; [exact G|].
      apply I2 in H as [H|H]; [|auto]. apply I1 in H as [[]|H]. auto.
    + intros [G H]. eapply Permutation_in; [symmetry; apply sort_by_perm|].
      apply filter_In. split; [|exact G]. apply I2.
      destruct H as [H|H]; [left; apply I1; auto|auto].
Qed.

Lemma count_true_length (l : table) : count (fun _ => true) l = length l.
Proof. unfold count. now rewrite filter_true. Qed.

Lemma sum_indicator_zero (x : string) (ts : list string) :
  ~ In x ts -> list_sum (map (fun t => if (x =? t)%string then 1 else 0) ts) = 0.
Proof.
  induction ts as [|u ts IH]; intros Hx; simpl; [reflexivity|].
  destruct (x =? u)%string eqn:E.
  - apply String.eqb_eq in E. subst u. exfalso. apply Hx. now left.
  - apply IH. intros H. apply Hx. now right.
Qed.

Lemma sum_indicator (x : string) (ts : list string) :
  NoDup ts -> In x ts -> list_sum (map (fun t => if (x =? t)%string then 1 else 0) ts) = 1.
Proof.
  induction 1 as [|t ts Hn Hd IH]; intros Hx; [destruct Hx|]. simpl.
  destruct (x =? t)%string eqn:E.
  - apply String.eqb_eq in E. subst t. rewrite sum_indicator_zero by exact Hn. reflexivity.
  - apply String.eqb_neq in E. destruct Hx as [Hx|Hx]; [congruence|]. now apply IH.
Qed.

Lemma sum_counts_by_key (key : row -> string) (p : row -> bool) (ts : list string) (l : table) :
  NoDup ts -> (forall r, In r l -> In (key r) ts) ->
  list_sum (map (fun t => count (fun r => (key r =? t)%string && p r) l) ts) = count p l.
Proof.
  intros Hn. induction l as [|r l IH]; intros Hl.
  - rewrite (map_ext _ (fun _ => 0)) by reflexivity. clear. unfold count. simpl.
    induction ts as [|u us IHu]; simpl; auto.
  - assert (E : forall t, count (fun r => (key r =? t)%string && p r) (r :: l) =
                 (if (key r =? t)%string then (if p r then 1 else 0) else 0) +
                 count (fun r => (key r =? t)%string && p r) l).
    { intros t. unfold count. simpl. destruct (key r =? t)%string, (p r); reflexivity. }
    rewrite (map_ext _ _ E).
    assert (S : forall (f g : string -> nat) (ts : list string),
        list_sum (map (fun t => f t + g t) ts) = list_sum (map f ts) + list_sum (map g ts)).
    { intros f g. induction ts0 as [|u us IHu]; simpl; [reflexivity|]. rewrite IHu. lia. }
    rewrite S, IH by (intros r' Hr'; apply Hl; now right).
    assert (list_sum (map (fun t => if (key r =? t)%string then (if p r then 1 else 0) else 0) ts) =
            if p r then 1 else 0) as ->.
    { destruct (p r).
      - apply sum_indicator; [exact Hn|apply Hl; now left].
      - induction ts as [|u us IHu]; simpl; [reflexivity|].
        destruct (key r =? u)%string; simpl; [|]; clear; induction us; simpl; auto.
        all: destruct (key r =? a)%string; simpl; auto. }
    unfold count. simpl. destruct (p r); reflexivity.
Qed.

Lemma list_sum_map_add {B : Type} (f g : B -> nat) (l : list B) :
  list_sum (map (fun x => f x + g x) l) = list_sum (map f l) + list_sum (map g l).
Proof. induction l as [|x l IH]; simpl; [reflexivity|]. rewrite IH. lia. Qed.

Lemma NoDup_map_snd_filter (o : string) (l : list (string * string)) :
  NoDup l -> NoDup (map snd (filter (fun p => (fst p =? o)%string) l)).
Proof.
  induction 1 as [|p l Hp Hn IH]; simpl; [constructor|].
  destruct (fst p =? o)%string eqn:E; simpl; [|exact IH].
  constructor; [|exact IH]. intros H. apply in_map_iff in H as [q [Eq Hq]].
  apply filter_In in Hq as [Hq Fq]. apply Hp.
  apply String.eqb_eq in E, Fq. destruct p as [a b], q as [c d]; simpl in *.
  subst. exact Hq.
Qed.

Lemma opp_deck_name_stats (n t : string) (c1 c2 : table) :
  opp_deck_name (matchup_stats n t c1 c2) = n.
Proof. reflexivity. Qed.

Lemma type_rows_sum (T : table) (deck : string) (ty : option string) (o : string)
    (F : matchup_row -> nat) (p1 p2 : row -> bool)
    (HF : forall n t c1 c2, F (matchup_stats n t c1 c2) = count p1 c1 + count p2 c2) :
  list_sum (map F (filter (fun m => (opp_deck_name m =? o)%string) (matchup_data T deck ty))) =
  list_sum (map (fun p => count p1 (case1_games T deck ty p) + count p2 (case2_games T deck ty p))
                (filter (fun p => (fst p =? o)%string) (all_faced_opponents_tuples T deck ty))).
Proof.
  unfold matchup_data. induction (all_faced_opponents_tuples T deck ty) as [|p l IH];
    simpl; [reflexivity|].
  rewrite filter_app, map_app, list_sum_app, IH.
  destruct (0 <? length (case1_games T deck ty p) + length (case2_games T deck ty p)) eqn:G.
  - cbn [flat_map app filter]. rewrite opp_deck_name_stats.
    destruct (fst p =? o)%string; simpl; rewrite ?HF; lia.
  - apply Nat.ltb_ge in G.
    pose proof (count_le p1 (case1_games T deck ty p)).
    pose proof (count_le p2 (case2_games T deck ty p)).
    destruct (fst p =? o)%string; simpl; lia.
Qed.

Lemma all_types_count_sum (T : table) (deck : string) (ty : option string) (o : string)
    (F : matchup_row -> nat) (p1 p2 : row -> bool)
    (HF : forall n t c1 c2, F (matchup_stats n t c1 c2) = count p1 c1 + count p2 c2)
    (Ho : (truthy o && negb (py_lower o =? "nan"))%string = true) :
  list_sum (map F (filter (fun m => (opp_deck_name m =? o)%string) (matchup_data T deck ty))) =
  count p1 (case1_agg_games_total T deck ty o) + count p2 (case2_agg_games_total T deck ty o).
Proof.
  rewrite (type_rows_sum T deck ty o F p1 p2 HF), list_sum_map_add.
  destruct (faced_tuples_spec T deck ty) as [N I].
  set (P := filter (fun p => (fst p =? o)%string) (all_faced_opponents_tuples T deck ty)).
  assert (HP : forall p, In p P -> p = (o, snd p)).
  { intros [a b] Hp. apply filter_In in Hp as [_ E]. apply String.eqb_eq in E. simpl in *. now subst. }
  assert (Nts : NoDup (map snd P)) by apply NoDup_map_snd_filter, N.
  assert (Hin : forall t, In (o, t) (all_faced_opponents_tuples T deck ty) -> In t (map snd P)).
  { intros t Ht. apply in_map_iff. exists (o, t). split; [reflexivity|].
    apply filter_In. split; [exact Ht|]. apply String.eqb_refl. }
  f_equal.
  - rewrite <- (sum_counts_by_key opponent_deck_type p1 (map snd P)); [|exact Nts|].
    + rewrite map_map. f_equal. apply map_ext_in. intros p Hp. rewrite (HP p Hp) at 1.
      unfold case1_games, case1_agg_games_total. rewrite !count_filter. apply count_ext.
      intros r. simpl. now rewrite andb_assoc.
    + intros r Hr. apply Hin. unfold case1_agg_games_total in Hr.
      apply filter_In in Hr as [Hr E]. apply String.eqb_eq in E. apply I.
      split; [exact Ho|]. left. exists r. split; [exact Hr|]. now rewrite E.
  - rewrite <- (sum_counts_by_key my_deck_type p2 (map snd P)); [|exact Nts|].
    + rewrite map_map. f_equal. apply map_ext_in. intros p Hp. rewrite (HP p Hp) at 1.
      unfold case2_games, case2_agg_games_total. rewrite !count_filter. apply count_ext.
      intros r. simpl. now rewrite andb_assoc.
    + intros r Hr. apply Hin. unfold case2_agg_games_total in Hr.
      apply filter_In in Hr as [Hr E]. apply String.eqb_eq in E. apply I.
      split; [exact Ho|]. right. exists r. split; [exact Hr|]. now rewrite E.
Qed.

Lemma fold_set_add_map {B : Type} (f : B -> string) (l : list B) (acc : list string) :
  fold_left (fun acc m => set_add (f m) acc) l acc =
  fold_left (fun acc x => set_add x acc) (map f l) acc.
Proof. revert acc. induction l as [|x l IH]; intros acc; simpl; [reflexivity|]. apply IH. Qed.

Lemma agg_row_shape (T : table) (deck : string) (ty : option string) (m : matchup_row) :
  In m (agg_matchup_data T deck ty) ->
  exists o, (truthy o && negb (py_lower o =? "nan"))%string = true /\
    m = matchup_stats o ALL_TYPES_PLACEHOLDER
          (case1_agg_games_total T deck ty o) (case2_agg_games_total T deck ty o).
Proof.
  unfold agg_matchup_data. intros Hm. apply in_flat_map in Hm as [o [Ho Hm]].
  destruct (0 <? _) in Hm; [|destruct Hm]. destruct Hm as [<-|[]].
  exists o. split; [|reflexivity].
  rewrite fold_set_add_map in Ho.
  apply (proj2 (fold_set_add _ [] (NoDup_nil _))) in Ho as [[]|Ho].
  apply in_map_iff in Ho as [m' [<- Hm']]. unfold matchup_data in Hm'.
  apply in_flat_map in Hm' as [p [Hp Hm']].
  destruct (0 <? _) in Hm'; [|destruct Hm']. destruct Hm' as [<-|[]].
  apply (proj2 (faced_tuples_spec T deck ty)) in Hp as [Hp _]. exact Hp.
Qed.

(** X17: every ALL TYPES row of the matchup table aggregates the type rows
    of the same opponent deck: its games, its wins and its games going
    first are the sums of those of the type rows with that opponent name. *)
Theorem all_types_row_is_sum_of_type_rows (T : table) (deck : string) (ty : option string)
    (m : matchup_row) (Hm : In m (agg_matchup_data T deck ty)) :
  let rows := filter (fun m' => (opp_deck_name m' =? opp_deck_name m)%string)
                     (matchup_data T deck ty) in
  games_played_count m = list_sum (map games_played_count rows) /\
  focus_deck_wins_count m = list_sum (map focus_deck_wins_count rows) /\
  fd_first_games_count m = list_sum (map fd_first_games_count rows).
Proof.
  destruct (agg_row_shape T deck ty m Hm) as [o [Ho ->]]. cbv zeta.
  change (opp_deck_name (matchup_stats o ALL_TYPES_PLACEHOLDER _ _)) with o.
  split; [|split].
  - rewrite (all_types_count_sum T deck ty o games_played_count (fun _ => true) (fun _ => true));
      [|intros; simpl; now rewrite !count_true_length|exact Ho].
    simpl. now rewrite !count_true_length.
  - rewrite (all_types_count_sum T deck ty o focus_deck_wins_count
      (is_result WIN) (is_result LOSS)); [reflexivity|intros; reflexivity|exact Ho].
  - rewrite (all_types_count_sum T deck ty o fd_first_games_count
      (is_first_second FIRST) (is_first_second SECOND)); [reflexivity|intros; reflexivity|exact Ho].
Qed.

Lemma all_types_row_is_sum_of_type_rows_witness :
  let T := [mkRow "S1" None "E" "X" "a" "Y" "p" FIRST WIN (Some 4%Z) "";
            mkRow "S1" None "E" "Y" "q" "X" "a" FIRST WIN None ""] in
  let m := matchup_stats "Y" ALL_TYPES_PLACEHOLDER
             (case1_agg_games_total T "X" None "Y") (case2_agg_games_total T "X" None "Y") in
  In m (agg_matchup_data T "X" None) /\
  (let rows := filter (fun m' => (opp_deck_name m' =? opp_deck_name m)%string)
                      (matchup_data T "X" None) in
   games_played_count m = list_sum (map games_played_count rows) /\
   focus_deck_wins_count m = list_sum (map focus_deck_wins_count rows) /\
   fd_first_games_count m = list_sum (map fd_first_games_count rows)).
Proof.
  cbv zeta.
  assert (H : In (matchup_stats "Y" ALL_TYPES_PLACEHOLDER
     (case1_agg_games_total [mkRow "S1" None "E" "X" "a" "Y" "p" FIRST WIN (Some 4%Z) "";
            mkRow "S1" None "E" "Y" "q" "X" "a" FIRST WIN None ""] "X" None "Y")
     (case2_agg_games_total [mkRow "S1" None "E" "X" "a" "Y" "p" FIRST WIN (Some 4%Z) "";
            mkRow "S1" None "E" "Y" "q" "X" "a" FIRST WIN None ""] "X" None "Y"))
     (agg_matchup_data [mkRow "S1" None "E" "X" "a" "Y" "p" FIRST WIN (Some 4%Z) "";
            mkRow "S1" None "E" "Y" "q" "X" "a" FIRST WIN None ""] "X" None))
    by (vm_compute; left; reflexivity).
  split; [exact H|].
  exact (all_types_row_is_sum_of_type_rows _ _ _ _ H).
Defined.

Lemma final_value_reset (s n : option string) :
  missing_selection (final_value (reset_select s) (reset_new n)) = true.
Proof. destruct s, n; reflexivity. Qed.

Lemma in_check_message (v : option string) (msg : string) :
  missing_selection v = true -> In msg (if missing_selection v then [msg] else []).
Proof. intros ->. now left. Qed.

Lemma refused_when_message (F : form_state) (msg : string) (date_val : option Z) :
  In msg (error_messages F) -> submitted_record F date_val = None.
Proof. unfold submitted_record. destruct (error_messages F); [intros []|reflexivity]. Qed.

(** X18: changing the season of the input form resets both decks and
    both types: the form then shows the four deck and type error messages
    and records nothing until they are chosen again, while the season and
    the environment chosen stay as they were. *)
Theorem season_change_requires_deck_reentry (F : form_state) (date_val : option Z) :
  let F' := on_season_select_change_input_form F in
  In "使用デッキ名を入力または選択してください。" (error_messages F') /\
  In "使用デッキの型を入力または選択してください。" (error_messages F') /\
  In "相手デッキ名を入力または選択してください。" (error_messages F') /\
  In "相手デッキの型を入力または選択してください。" (error_messages F') /\
  submitted_record F' date_val = None /\
  final_season F' = final_season F /\ final_environment F' = final_environment F.
Proof.
  cbv zeta.
  assert (H1 : In "使用デッキ名を入力または選択してください。"
                 (error_messages (on_season_select_change_input_form F))).
  { unfold error_messages. cbv zeta. rewrite !in_app_iff. right; left.
    apply in_check_message, final_value_reset. }
  split; [exact H1|]. split.
  { unfold error_messages. cbv zeta. rewrite !in_app_iff. right; right; left.
    apply in_check_message, final_value_reset. }
  split.
  { unfold error_messages. cbv zeta. rewrite !in_app_iff. right; right; right; left.
    apply in_check_message, final_value_reset. }
  split.
  { unfold error_messages. cbv zeta. rewrite !in_app_iff. right; right; right; right; left.
    apply in_check_message, final_value_reset. }
  split; [exact (refused_when_message _ _ date_val H1)|].
  split; reflexivity.
Qed.

(** X19: changing my deck (or the opponent's deck) in the input form
    resets the type of that deck only: the form then shows the error
    message for that type and records nothing until a type is chosen
    again, while both deck names and the other deck's type stay as they
    were. *)
Theorem deck_change_requires_type_reentry (F : form_state) (date_val : option Z) :
  (let F' := on_my_deck_select_change_input_form F in
   In "使用デッキの型を入力または選択してください。" (error_messages F') /\
   submitted_record F' date_val = None /\
   final_my_deck F' = final_my_deck F /\ final_opponent_deck F' = final_opponent_deck F /\
   final_opponent_deck_type F' = final_opponent_deck_type F) /\
  (let F' := on_opponent_deck_select_change_input_form F in
   In "相手デッキの型を入力または選択してください。" (error_messages F') /\
   submitted_record F' date_val = None /\
   final_my_deck F' = final_my_deck F /\ final_opponent_deck F' = final_opponent_deck F /\
   final_my_deck_type F' = final_my_deck_type F).
Proof.
  cbv zeta. split.
  - assert (H : In "使用デッキの型を入力または選択してください。"
                  (error_messages (on_my_deck_select_change_input_form F))).
    { unfold error_messages. cbv zeta. rewrite !in_app_iff. right; right; left.
      apply in_check_message, final_value_reset. }
    split; [exact H|]. split; [exact (refused_when_message _ _ date_val H)|].
    repeat split; reflexivity.
  - assert (H : In "相手デッキの型を入力または選択してください。"
                  (error_messages (on_opponent_deck_select_change_input_form F))).
    { unfold error_messages. cbv zeta. rewrite !in_app_iff. right; right; right; right; left.
      apply in_check_message, final_value_reset. }
    split; [exact H|]. split; [exact (refused_when_message _ _ date_val H)|].
    repeat split; reflexivity.
Qed.

Lemma filter_partition_perm {A : Type} (p : A -> bool) (l : list A) :
  Permutation (filter p l ++ filter (fun x => negb (p x)) l) l.
Proof.
  induction l as [|x l IH]; simpl; [reflexivity|].
  destruct (p x); simpl.
  - apply perm_skip, IH.
  - symmetry. apply Permutation_cons_app. symmetry. exact IH.
Qed.

Lemma StronglySorted_Forall_and {A : Type} (R : A -> A -> Prop) (P : A -> Prop) (l : list A) :
  StronglySorted R l -> Forall P l -> StronglySorted (fun x y => P x /\ P y /\ R x y) l.
Proof.
  induction 1 as [|x l _ IH Hx]; intros HP; constructor; inversion HP; subst.
  - apply IH. assumption.
  - apply Forall_forall. intros y Hy. rewrite Forall_forall in Hx, H2.
    split; [assumption|]. split; auto.
Qed.

(** X20: the record list of the main page shows every record exactly
    once: first the dated records, newest first, then the records without
    a date, in the order they were recorded. *)
Theorem record_list_order (T : table) :
  Permutation (df_display_sorted T) T /\
  exists D, df_display_sorted T = D ++ filter (fun r => negb (dated r)) T /\
    Permutation D (filter dated T) /\
    StronglySorted (fun r1 r2 => exists a b, date r1 = Some a /\ date r2 = Some b /\ (b <= a)%Z) D.
Proof.
  unfold df_display_sorted.
  assert (Hperm : Permutation (sort_by date_desc_le (filter dated T)) (filter dated T))
    by apply sort_by_perm.
  split.
  { eapply perm_trans; [|apply (filter_partition_perm dated)].
    apply Permutation_app_tail, Hperm. }
  exists (sort_by date_desc_le (filter dated T)). split; [reflexivity|]. split; [exact Hperm|].
  assert (HS : StronglySorted (fun a b => date_desc_le a b = true)
                 (sort_by date_desc_le (filter dated T))).
  { apply sort_by_strongly_sorted.
    - intros x y. unfold date_desc_le. rewrite !Z.leb_le. lia.
    - intros x y z. unfold date_desc_le. rewrite !Z.leb_le. lia. }
  assert (HF : Forall (fun r => dated r = true) (sort_by date_desc_le (filter dated T))).
  { apply Forall_forall. intros r Hr. apply (Permutation_in _ Hperm) in Hr.
    apply filter_In in Hr. apply Hr. }
  eapply StronglySorted_weaken; [|exact (StronglySorted_Forall_and _ _ _ HS HF)].
  intros x y [Hx [Hy Hxy]]. unfold dated, date_desc_le, date_key in *.
  destruct (date x) as [a|], (date y) as [b|]; try discriminate.
  exists a, b. split; [reflexivity|]. split; [reflexivity|]. apply Z.leb_le, Hxy.
Qed.
